(** * Recipe chatbot: retry, fan-out, deduplication, numbering, history

    A shallow embedding of
    - [homeworks/hw2/my_implementation/generate_synthetic_queries.py]
      ([call_llm], [generate_dimension_tuples], [generate_queries_for_tuple],
      [generate_queries_parallel], [save_queries_to_csv]) and
    - [backend/utils.py] ([get_agent_response]),
    and the properties of these functions.

    Python exceptions are values of [exception]; a computation is a function
    from a state to an [outcome] and a new state.  The hosted model, pydantic's
    serialiser and the prompt texts are outside the repository: they are section
    variables, so every theorem holds for all of them. *)

From Stdlib Require Import Ascii String DecimalString DecimalNat.
From stdpp Require Import gmap strings list.

Set Warnings "-clear-no-such-hyp".

Open Scope string_scope.
Open Scope list_scope.
Open Scope nat_scope.

(** ** Exceptions and outcomes *)

Record exception := Exc { exc_type : string; exc_msg : string }.

#[global] Instance exception_eq_dec : EqDecision exception.
Proof. solve_decision. Defined.

(** [str(e)] as the f-strings of the source print it. *)
Definition str_exc (e : exception) : string := exc_msg e.

Inductive outcome (A : Type) : Type :=
| Returned (a : A)
| Raised (e : exception).
Arguments Returned {A} a.
Arguments Raised {A} e.

#[global] Instance outcome_eq_dec `{EqDecision A} : EqDecision (outcome A).
Proof. solve_decision. Defined.

Definition is_raised {A} (o : outcome A) : Prop :=
  match o with Raised _ => True | Returned _ => False end.

#[global] Instance is_raised_dec {A} (o : outcome A) : Decision (is_raised o).
Proof. destruct o; simpl; apply _. Defined.

(** State-and-exception computations: [prog S A] runs on a state [S]; the
    state reached when an exception is raised is kept, as Python keeps the
    effects made before a [raise]. *)
Definition prog (S A : Type) : Type := S → outcome A * S.

Definition ret {S A} (a : A) : prog S A := λ s, (Returned a, s).
Definition raise {S A} (e : exception) : prog S A := λ s, (Raised e, s).
Definition bind {S A B} (m : prog S A) (k : A → prog S B) : prog S B :=
  λ s, match m s with
       | (Returned a, s') => k a s'
       | (Raised e, s') => (Raised e, s')
       end.
(** [try: m except Exception as e: h e] *)
Definition try_except {S A} (m : prog S A) (h : exception → prog S A) : prog S A :=
  λ s, match m s with
       | (Returned a, s') => (Returned a, s')
       | (Raised e, s') => h e s'
       end.
Definition lift_outcome {S A} (o : outcome A) : prog S A := λ s, (o, s).

(** stdpp's monad notations [x ← m; k] and [m;; k] for [prog S]. *)
#[global] Instance prog_ret {S} : MRet (prog S) := λ A, ret.
#[global] Instance prog_bind {S} : MBind (prog S) := λ A B k m, bind m k.

(** ** Chat messages

    A message is a Python [dict] from keys to strings; a conversation is a
    list of them. *)
Abbreviation message := (gmap string string).

Definition mk_message (role content : string) : message :=
  <["content" := content]> (<["role" := role]> ∅).

(** ** Decimal text of integers, [str(n)] and [f"{n:03d}"] *)

Definition str_of_nat (n : nat) : string :=
  NilEmpty.string_of_uint (Nat.to_uint n).

Fixpoint zeros (k : nat) : string :=
  match k with O => EmptyString | S k' => String "0"%char (zeros k') end.

(** [f"{n:03d}"] for [n >= 0]: the decimal digits, left-padded with zeros to
    width 3; longer numbers are printed in full. *)
Definition format_03d (n : nat) : string :=
  let digits := str_of_nat n in
  zeros (3 - String.length digits) +:+ digits.

(** Reading a decimal numeral back, for stating what an id counts. *)
Definition nat_of_str (s : string) : option nat :=
  match s with
  | EmptyString => None
  | _ => Nat.of_uint <$> NilEmpty.uint_of_string s
  end.

(** ** The synthetic query pipeline: [generate_synthetic_queries.py] *)

Module Synth.

(** *** Data model (the pydantic classes) *)

Record DimensionTuple := {
  occasion : string;
  author_style : string;
  ingredients : list string;
  cooking_method : string
}.

Record QueryWithDimensions := {
  id : string;
  query : string;
  dimension_tuple : DimensionTuple;
  is_realistic_and_kept : Z;
  notes_for_filtering : string
}.

Record DimensionTuplesList := { tuples : list DimensionTuple }.
Record QueriesList := { queries : list string }.

#[global] Instance DimensionTuple_eq_dec : EqDecision DimensionTuple.
Proof. solve_decision. Defined.
#[global] Instance QueryWithDimensions_eq_dec : EqDecision QueryWithDimensions.
Proof. solve_decision. Defined.

(** One row of the DataFrame built by [save_queries_to_csv]; the column
    names are the dict keys of the source. *)
Record csv_row := {
  col_id : string;
  col_query : string;
  col_dimension_tuple_json : string;
  col_is_realistic_and_kept : Z;
  col_notes_for_filtering : string
}.

Definition NUM_QUERIES_PER_TUPLE : nat := 5.
Definition MAX_WORKERS : nat := 5.

(** *** The world a thread acts on

    Completion requests made and conversations sent, [time.sleep] calls, lines
    printed, ticks of the progress bar, and the files written.  Every worker
    thread of a pool is run on a world of its own: what the hosted model
    answers to one thread does not depend, in the model, on the others. *)
Record world := World {
  n_calls : nat;
  sent : list (list message);
  sleeps : list nat;
  stdout : list string;
  pbar : nat;
  files : gmap string (list csv_row)
}.

Definition init : world := World 0 [] [] [] 0 ∅.

(** The world [w] with [lines] printed after what it shows. *)
Definition printed (w : world) (lines : list string) : world :=
  World (n_calls w) (sent w) (sleeps w) (stdout w ++ lines) (pbar w) (files w).

Definition print (line : string) : prog world () :=
  λ w, (Returned (),
        World (n_calls w) (sent w) (sleeps w) (stdout w ++ [line]) (pbar w) (files w)).

Definition sleep (seconds : nat) : prog world () :=
  λ w, (Returned (),
        World (n_calls w) (sent w) (sleeps w ++ [seconds]) (stdout w) (pbar w) (files w)).

Definition pbar_update (n : nat) : prog world () :=
  λ w, (Returned (),
        World (n_calls w) (sent w) (sleeps w) (stdout w) (pbar w + n) (files w)).

(** [df.to_csv(path, index=False)]: the file at [path] is replaced. *)
Definition to_csv (path : string) (rows : list csv_row) : prog world () :=
  λ w, (Returned (),
        World (n_calls w) (sent w) (sleeps w) (stdout w) (pbar w)
              (<[path := rows]> (files w))).

(** *** The Structured LLM Caller: [call_llm] *)

Section call_llm.
(** [R] is the response schema ([DimensionTuplesList] or [QueriesList]);
    [response_format content] is the source's call of the schema class on
    [json.loads(content)], which raises on malformed JSON and on schema
    violations.  [backend messages k] is what the [k]-th completion request
    of this thread gives: the content of the first choice, or the exception
    [completion] raises. *)
Context {R : Type}.
Variable backend : list message → nat → outcome string.
Variable response_format : string → outcome R.

Definition completion (messages : list message) : prog world string :=
  λ w, (backend messages (n_calls w),
        World (S (n_calls w)) (sent w ++ [messages]) (sleeps w) (stdout w)
              (pbar w) (files w)).

(** The whole [try] body of one attempt. *)
Definition attempt_body (messages : list message) : prog world R :=
  response ← completion messages;
  lift_outcome (response_format response).

(** [for attempt in <attempts>: ...]; the result [None] is falling off the
    end of the loop, where Python returns [None]. *)
Fixpoint call_llm_loop (max_retries : nat) (messages : list message)
    (attempts : list nat) : prog world (option R) :=
  match attempts with
  | [] => ret None
  | attempt :: rest =>
      r ← try_except
             (v ← attempt_body messages; ret (Some (Some v)))
             (λ e, if decide (attempt = max_retries - 1)
                   then raise e
                   else (sleep 1;; ret None));
      match r with
      | Some v => ret v               (* [return response_format(...)] *)
      | None => call_llm_loop max_retries messages rest
      end
  end.

Definition call_llm (messages : list message) : prog world (option R) :=
  let max_retries := 3 in
  call_llm_loop max_retries messages (seq 0 max_retries).

(** The world after [c] more requests and [s] more one-second sleeps. *)
Definition after (messages : list message) (w : world) (c s : nat) : world :=
  World (c + n_calls w) (sent w ++ replicate c messages)
        (sleeps w ++ replicate s 1) (stdout w) (pbar w) (files w).

(** The outcome of the attempt made as the [k]-th request. *)
Definition attempt_outcome (messages : list message) (k : nat) : outcome R :=
  match backend messages k with
  | Returned content => response_format content
  | Raised e => Raised e
  end.
End call_llm.

(** [executor.submit(f, ...)] followed by [future.result()]: the task runs in
    a worker thread, on a world of its own; the future holds what it returned
    or raised. *)
Definition future_result {A} (task : prog world A) : outcome A := (task init).1.
Definition future_world {A} (task : prog world A) : world := (task init).2.

(** Reading an attribute of what [call_llm] returned; on [None] Python raises
    [AttributeError]. *)
Definition AttributeError (attr : string) : exception :=
  Exc "AttributeError" ("'NoneType' object has no attribute '" +:+ attr +:+ "'").
Definition IndexError : exception := Exc "IndexError" "list index out of range".

Definition getattr {S A B} (attr : string) (proj : A → B) (o : option A) : prog S B :=
  match o with
  | Some a => ret (proj a)
  | None => raise (AttributeError attr)
  end.

Section pipeline.
(** pydantic's [model_dump_json()] on a [DimensionTuple], the two prompt
    texts, the schema validators, and the answers of the hosted model to
    each pool task. *)
Variable model_dump_json : DimensionTuple → string.
Variable PROMPT : string.
Variable queries_prompt : DimensionTuple → string.
Variable DimensionTuplesList_parse : string → outcome DimensionTuplesList.
Variable QueriesList_parse : string → outcome QueriesList.
Variable tuples_backend : nat → list message → nat → outcome string.
Variable queries_backend : nat → list message → nat → outcome string.

(** *** Deduplication loop of [generate_dimension_tuples] *)

(** One iteration of [for tup in all_tuples], on [(seen, unique_tuples)]. *)
Definition dedup_step (st : gset string * list DimensionTuple)
    (tup : DimensionTuple) : gset string * list DimensionTuple :=
  let tuple_str := model_dump_json tup in
  if decide (tuple_str ∈ st.1)
  then st
  else ({[tuple_str]} ∪ st.1, st.2 ++ [tup]).

Definition dedup_loop (all_tuples : list DimensionTuple)
  : gset string * list DimensionTuple :=
  foldl dedup_step (∅, []) all_tuples.

Definition unique_tuples (all_tuples : list DimensionTuple) : list DimensionTuple :=
  (dedup_loop all_tuples).2.

(** *** [generate_dimension_tuples] *)

(** [for future in futures: responses.append(future.result())] *)
Fixpoint collect_responses {A} (futures : list (outcome A)) : prog world (list A) :=
  match futures with
  | [] => ret []
  | future :: rest =>
      response ← lift_outcome future;
      responses ← collect_responses rest;
      ret (response :: responses)
  end.

(** [for response in responses: all_tuples.extend(response.tuples)] *)
Fixpoint extend_all (responses : list (option DimensionTuplesList))
    (all_tuples : list DimensionTuple) : prog world (list DimensionTuple) :=
  match responses with
  | [] => ret all_tuples
  | response :: rest =>
      ts ← getattr "tuples" tuples response;
      extend_all rest (all_tuples ++ ts)
  end.

(** The five futures, in submission order. *)
Definition tuple_futures : list (outcome (option DimensionTuplesList)) :=
  let messages := [mk_message "user" PROMPT] in
  (λ i, future_result
          (call_llm (tuples_backend i) DimensionTuplesList_parse messages))
    <$> seq 0 5.

Definition generate_dimension_tuples : prog world (list DimensionTuple) :=
  try_except
    (print "Generating dimension tuples in parallel...";;
     responses ← collect_responses tuple_futures;
     all_tuples ← extend_all responses [];
     let unique := unique_tuples all_tuples in
     print ("Generated " +:+ str_of_nat (length all_tuples) +:+ " total tuples, "
            +:+ str_of_nat (length unique) +:+ " unique");;
     ret unique)
    (λ e, print ("Error generating dimension tuples: " +:+ str_exc e);;
          ret []).

(** *** [generate_queries_for_tuple], run by pool task number [task] *)

Definition generate_queries_for_tuple (task : nat)
    (dimension_tuple : DimensionTuple) : prog world (list string) :=
  let messages := [mk_message "user" (queries_prompt dimension_tuple)] in
  try_except
    (response ← call_llm (queries_backend task) QueriesList_parse messages;
     getattr "queries" queries response)
    (λ e, print ("Error generating queries for tuple: " +:+ str_exc e);;
          ret []).

(** *** [generate_queries_parallel] *)

(** The local variables the merge loop updates. *)
Record locals := Locals {
  all_queries : list QueryWithDimensions;
  query_id : nat
}.

(** [QueryWithDimensions(id=f"SYN{query_id:03d}", query=query,
    dimension_tuple=...)]; the two other fields take their defaults. *)
Definition new_query (query_id : nat) (q : string) (t : DimensionTuple)
  : QueryWithDimensions :=
  {| id := "SYN" +:+ format_03d query_id;
     query := q;
     dimension_tuple := t;
     is_realistic_and_kept := 1;
     notes_for_filtering := EmptyString |}.

(** [for query in queries: all_queries.append(...); query_id += 1].
    [dimension_tuples[tuple_idx]] raises [IndexError] out of range. *)
Fixpoint append_queries (dimension_tuples : list DimensionTuple)
    (tuple_idx : nat) (qs : list string) (l : locals) : outcome () * locals :=
  match qs with
  | [] => (Returned (), l)
  | q :: rest =>
      match dimension_tuples !! tuple_idx with
      | None => (Raised IndexError, l)
      | Some t =>
          append_queries dimension_tuples tuple_idx rest
            (Locals (all_queries l ++ [new_query (query_id l) q t])
                    (query_id l + 1))
      end
  end.

(** The body of [for future in as_completed(future_to_tuple)], for the
    future of tuple [tuple_idx] holding [result]. *)
Definition merge_one (dimension_tuples : list DimensionTuple)
    (tuple_idx : nat) (result : outcome (list string))
    (l : locals) : prog world locals :=
  let handler e l' :=
    print ("Tuple " +:+ str_of_nat (tuple_idx + 1) +:+
           " generated an exception: " +:+ str_exc e);;
    pbar_update 1;;
    ret l' in
  match result with
  | Raised e => handler e l
  | Returned qs =>
      match append_queries dimension_tuples tuple_idx qs l with
      | (Returned _, l') => pbar_update 1;; ret l'
      | (Raised e, l') => handler e l'
      end
  end.

Fixpoint merge_completed (dimension_tuples : list DimensionTuple)
    (completed : list (nat * outcome (list string)))
    (l : locals) : prog world locals :=
  match completed with
  | [] => ret l
  | (tuple_idx, result) :: rest =>
      l' ← merge_one dimension_tuples tuple_idx result l;
      merge_completed dimension_tuples rest l'
  end.

(** The futures of [future_to_tuple], by tuple index. *)
Definition query_futures (dimension_tuples : list DimensionTuple)
  : list (outcome (list string)) :=
  imap (λ i dim_tuple, future_result (generate_queries_for_tuple i dim_tuple))
       dimension_tuples.

(** [as_completed] yields the submitted futures in the order they finish:
    [order] lists their tuple indices in that order (a permutation of
    [range(len(dimension_tuples))]); an index that names no future is no
    completion. *)
Definition as_completed (futures : list (outcome (list string)))
    (order : list nat) : list (nat * outcome (list string)) :=
  omap (λ i, (λ r, (i, r)) <$> futures !! i) order.

Definition generate_queries_parallel (dimension_tuples : list DimensionTuple)
    (order : list nat) : prog world (list QueryWithDimensions) :=
  print ("Generating " +:+ str_of_nat NUM_QUERIES_PER_TUPLE +:+
         " queries each for " +:+ str_of_nat (length dimension_tuples) +:+
         " dimension tuples...");;
  l ← merge_completed dimension_tuples
        (as_completed (query_futures dimension_tuples) order)
        (Locals [] 1);
  ret (all_queries l).

(** *** [save_queries_to_csv] *)

Variable OUTPUT_CSV_PATH : string.

Definition row_of (q : QueryWithDimensions) : csv_row :=
  {| col_id := id q;
     col_query := query q;
     col_dimension_tuple_json := model_dump_json (dimension_tuple q);
     col_is_realistic_and_kept := is_realistic_and_kept q;
     col_notes_for_filtering := notes_for_filtering q |}.

Definition save_queries_to_csv (qs : list QueryWithDimensions) : prog world () :=
  match qs with
  | [] => print "No queries to save.";; ret ()
  | _ =>
      let df := row_of <$> qs in
      to_csv OUTPUT_CSV_PATH df;;
      print ("Saved " +:+ str_of_nat (length qs) +:+ " queries to " +:+
             OUTPUT_CSV_PATH)
  end.
End pipeline.

(** *** Vocabulary for the properties of the merge loop *)

(** The number an id carries: the decimal numeral after ["SYN"]. *)
Definition id_number (s : string) : option nat :=
  match s with
  | String "S" (String "Y" (String "N" digits)) => nat_of_str digits
  | _ => None
  end.

(** The records of one tuple [t] whose sub-request returned [qs], numbered
    from [start]. *)
Definition block (start : nat) (t : DimensionTuple) (qs : list string)
  : list QueryWithDimensions :=
  imap (λ k q, new_query (start + k) q t) qs.

(** What a completed future contributes: its queries, paired with the tuple
    it was submitted for. *)
Definition contribution (dimension_tuples : list DimensionTuple)
    (c : nat * outcome (list string)) : list (string * DimensionTuple) :=
  match c.2, dimension_tuples !! c.1 with
  | Returned qs, Some t => (λ q, (q, t)) <$> qs
  | _, _ => []
  end.

Definition emitted (dimension_tuples : list DimensionTuple)
    (completed : list (nat * outcome (list string)))
  : list (string * DimensionTuple) :=
  completed ≫= contribution dimension_tuples.

Definition number (start : nat) (pairs : list (string * DimensionTuple))
  : list QueryWithDimensions :=
  imap (λ k p, new_query (start + k) p.1 p.2) pairs.

Definition pair_of (r : QueryWithDimensions) : string * DimensionTuple :=
  (query r, dimension_tuple r).

Section tasks.
Variable queries_prompt : DimensionTuple → string.
Variable QueriesList_parse : string → outcome QueriesList.
Variable queries_backend : nat → list message → nat → outcome string.

(** The query strings the sub-request of tuple number [i] returned. *)
Definition task_queries (i : nat) (t : DimensionTuple) : list string :=
  match future_result
          (generate_queries_for_tuple queries_prompt QueriesList_parse
             queries_backend i t) with
  | Returned qs => qs
  | Raised _ => []
  end.

Definition task_pairs (dimension_tuples : list DimensionTuple) (i : nat)
  : list (string * DimensionTuple) :=
  match dimension_tuples !! i with
  | Some t => (λ q, (q, t)) <$> task_queries i t
  | None => []
  end.
End tasks.

End Synth.

(** ** The chat backend: [backend/utils.py] *)

Module Backend.

(** Python lists are mutable objects handled by reference.  The heap maps an
    address to the list stored there; [requests] records the conversations
    handed to [litellm.completion].  The dicts inside a list are shared
    between lists and never written by this module, so they are values. *)
Abbreviation loc := nat.

Record state := State {
  heap : list (list message);
  requests : list (list message)
}.

(** A new list object, at a so far unused address. *)
Definition alloc (v : list message) : prog state loc :=
  λ s, (Returned (length (heap s)), State (heap s ++ [v]) (requests s)).

(** Reading through a reference.  References come from the caller or from
    [alloc]; an address outside the heap denotes no object. *)
Definition deref (l : loc) : prog state (list message) :=
  λ s, match heap s !! l with
       | Some v => (Returned v, s)
       | None => (Raised (Exc "ReferenceError" "no such object"), s)
       end.

(** [d[key]] on a dict. *)
Definition getitem {S} (d : message) (key : string) : prog S string :=
  match d !! key with
  | Some v => ret v
  | None => raise (Exc "KeyError" ("'" +:+ key +:+ "'"))
  end.

Section get_agent_response.
(** The prompt constant, [str.strip], and the hosted model: [llm messages]
    is the content of the first choice of the completion, or the exception
    raised by the request or by indexing its result. *)
Variable SYSTEM_PROMPT : string.
Variable strip : string → string.
Variable llm : list message → outcome string.

(** The library reads the list it is given and does not write to it. *)
Definition request (v : list message) : prog state string :=
  λ s, (llm v, State (heap s) (requests s ++ [v])).

Definition litellm_completion (messages : loc) : prog state string :=
  v ← deref messages;
  request v.

(** [not messages or messages[0]["role"] != "system"] *)
Definition needs_system (msgs : list message) : prog state bool :=
  match msgs with
  | [] => ret true
  | first :: _ =>
      role ← getitem first "role";
      ret (bool_decide (role ≠ "system"))
  end.

Definition get_agent_response (messages : loc) : prog state loc :=
  msgs ← deref messages;
  missing ← needs_system msgs;
  current_messages ←
    (if (missing : bool)
     then alloc ([mk_message "system" SYSTEM_PROMPT] ++ msgs)
     else ret messages);
  content ← litellm_completion current_messages;
  let assistant_reply_content := strip content in
  current ← deref current_messages;
  updated_messages ←
    alloc (current ++ [mk_message "assistant" assistant_reply_content]);
  ret updated_messages.
End get_agent_response.

(** Vocabulary for the properties: the conversation begins with a system
    entry. *)
Definition leading_system (msgs : list message) : bool :=
  match msgs with
  | first :: _ => bool_decide (first !! "role" = Some "system")
  | [] => false
  end.

(** A conversation is well formed when its first item, if any, has a
    ["role"] key, as the docstring of [get_agent_response] requires of every
    item. *)
Definition first_has_role (msgs : list message) : Prop :=
  match msgs with
  | first :: _ => is_Some (first !! "role")
  | [] => True
  end.

(** The conversation [get_agent_response] hands to the model: the caller's,
    behind the default system entry unless it begins with a system entry. *)
Definition current_of (SYSTEM_PROMPT : string) (msgs : list message)
  : list message :=
  if leading_system msgs then msgs else mk_message "system" SYSTEM_PROMPT :: msgs.

End Backend.

(** ** The entry point of the synthetic query pipeline: [main] *)

Module SynthMain.
Import Synth.

Definition nl : string := String "010"%char EmptyString.

Section main.
(** The parameters of the pipeline, the environment of the process, the
    order in which the query futures complete (given their number), and the
    text of the elapsed time: [time.time()] is a floating point clock, so
    [elapsed] stands for the source's two-decimal rendering of the
    difference. *)
Variable model_dump_json : DimensionTuple → string.
Variable PROMPT : string.
Variable queries_prompt : DimensionTuple → string.
Variable DimensionTuplesList_parse : string → outcome DimensionTuplesList.
Variable QueriesList_parse : string → outcome QueriesList.
Variable tuples_backend : nat → list message → nat → outcome string.
Variable queries_backend : nat → list message → nat → outcome string.
Variable OUTPUT_CSV_PATH : string.
Variable environ : gmap string string.
Variable schedule : nat → list nat.
Variable elapsed : string.

(** Step 2 and the persisting of its result. *)
Definition step2 (dimension_tuples : list DimensionTuple) : prog world () :=
  print ("Generated " +:+ str_of_nat (length dimension_tuples) +:+
         " dimension tuples.");;
  print (nl +:+ "Step 2: Generating natural language queries...");;
  qs ← generate_queries_parallel queries_prompt QueriesList_parse
         queries_backend dimension_tuples (schedule (length dimension_tuples));
  match qs with
  | [] => print "Failed to generate any queries."
  | _ =>
      save_queries_to_csv model_dump_json OUTPUT_CSV_PATH qs;;
      print (nl +:+ "Query generation completed successfully in " +:+ elapsed
             +:+ " seconds.");;
      print ("Generated " +:+ str_of_nat (length qs) +:+ " queries from " +:+
             str_of_nat (length dimension_tuples) +:+ " dimension tuples.")
  end.

Definition main : prog world () :=
  match environ !! "OPENAI_API_KEY" with
  | None => print "Error: OPENAI_API_KEY environment variable not set."
  | Some _ =>
      print "Step 1: Generating dimension tuples...";;
      dimension_tuples ← generate_dimension_tuples model_dump_json PROMPT
                           DimensionTuplesList_parse tuples_backend;
      match dimension_tuples with
      | [] => print "Failed to generate dimension tuples. Exiting."
      | _ => step2 dimension_tuples
      end
  end.
End main.

End SynthMain.

(** ** Batch generation of recipes: [generate_recipes.py] *)

Module Recipes.

(** What the script acts on: the calls configuring mlflow and dspy, the
    questions put to the recipe program, the lines printed, and the files
    written (a table is the list of its rows, each a dict).  Of the calls
    into mlflow, dspy and pandas, reading the queries file and running the
    recipe program may raise; the others are taken to return.  The [tqdm]
    wrapper of the query list only draws a progress bar and is left out. *)
Record world := World {
  tracking : list string;
  lm_keys : list string;
  autolog : nat;
  asked : list string;
  stdout : list string;
  files : gmap string (list message)
}.

Definition init : world := World [] [] 0 [] [] ∅.

Definition print (line : string) : prog world () :=
  λ w, (Returned (),
        World (tracking w) (lm_keys w) (autolog w) (asked w)
              (stdout w ++ [line]) (files w)).

(** [mlflow.set_tracking_uri(uri)] and [mlflow.set_experiment(name)]. *)
Definition mlflow_set (what : string) : prog world () :=
  λ w, (Returned (),
        World (tracking w ++ [what]) (lm_keys w) (autolog w) (asked w)
              (stdout w) (files w)).

Definition mlflow_dspy_autolog : prog world () :=
  λ w, (Returned (),
        World (tracking w) (lm_keys w) (S (autolog w)) (asked w)
              (stdout w) (files w)).

(** [dspy.configure(lm=dspy.LM(model, api_key=key))] *)
Definition dspy_configure (key : string) : prog world () :=
  λ w, (Returned (),
        World (tracking w) (lm_keys w ++ [key]) (autolog w) (asked w)
              (stdout w) (files w)).

(** [pd.DataFrame(rows).to_csv(path, index=False)] *)
Definition to_csv (path : string) (rows : list message) : prog world () :=
  λ w, (Returned (),
        World (tracking w) (lm_keys w) (autolog w) (asked w) (stdout w)
              (<[path := rows]> (files w))).

(** The world [w] after the questions [qs] were put to the program. *)
Definition asking (w : world) (qs : list string) : world :=
  World (tracking w) (lm_keys w) (autolog w) (asked w ++ qs) (stdout w) (files w).

(** The world in which the script calls [get_responses], once the column is
    read and the credential [key] found. *)
Definition ready (w : world) (key : string) : world :=
  World ((tracking w ++ ["http://localhost:5000"]) ++ ["dspy-experiment"])
        (lm_keys w ++ [key]) (autolog w) (asked w)
        (((stdout w ++ ["Configuring DSPy language model..."])
          ++ ["Creating DSPy program for recipe generation..."])
         ++ ["Generating recipes for the queries..."])
        (files w).

Definition mk_response (q recipe : string) : message :=
  <["recipe" := recipe]> (<["query" := q]> ∅).

Section recipes.
(** [program question k] is what [generate(question=question).recipe] gives
    when it is the [k]-th call of the program: the recipe, or the exception
    raised by the call or by reading the attribute.  [read_query_column] is
    the source's reading of column ["query"] of the queries file as a list.  *)
Variable program : string → nat → outcome string.
Variable read_query_column : outcome (list string).
Variable environ : gmap string string.

Definition generate (question : string) : prog world string :=
  λ w, (program question (length (asked w)),
        World (tracking w) (lm_keys w) (autolog w) (asked w ++ [question])
              (stdout w) (files w)).

(** The list comprehension of [get_responses]. *)
Fixpoint comprehension (queries : list string) : prog world (list message) :=
  match queries with
  | [] => ret []
  | q :: rest =>
      recipe ← generate q;
      responses ← comprehension rest;
      ret (mk_response q recipe :: responses)
  end.

Definition get_responses (queries : list string) : prog world (list message) :=
  mlflow_dspy_autolog;;
  responses ← comprehension queries;
  ret responses.

(** [os.environ[key]] *)
Definition environ_getitem (key : string) : prog world string :=
  match environ !! key with
  | Some v => ret v
  | None => raise (Exc "KeyError" ("'" +:+ key +:+ "'"))
  end.

Definition configure_lm : prog world () :=
  key ← environ_getitem "OPENAI_API_KEY";
  dspy_configure key.

(** The script run as [__main__]. *)
Definition main : prog world () :=
  mlflow_set "http://localhost:5000";;
  mlflow_set "dspy-experiment";;
  column ← lift_outcome read_query_column;
  let queries := take 40 column in
  print "Configuring DSPy language model...";;
  configure_lm;;
  print "Creating DSPy program for recipe generation...";;
  print "Generating recipes for the queries...";;
  responses ← get_responses queries;
  print "Saving generated recipes to 'generated_recipes.csv'...";;
  to_csv "homeworks/hw2/my_implementation/generated_recipes.csv" responses;;
  print "Recipes generated and saved to 'generated_recipes.csv'.".
End recipes.

End Recipes.

(** ** Reference instances of the external functions

    Used to run the definitions on concrete inputs. *)

Module Instances.
Import Synth.

Definition is_space (c : ascii) : bool :=
  let n := nat_of_ascii c in
  bool_decide (n = 32 ∨ (9 ≤ n ∧ n ≤ 13) ∨ (28 ≤ n ∧ n ≤ 31)).

Fixpoint lstrip (s : string) : string :=
  match s with
  | String c s' => if is_space c then lstrip s' else s
  | EmptyString => EmptyString
  end.

Fixpoint rstrip (s : string) : string :=
  match s with
  | String c s' =>
      match rstrip s' with
      | EmptyString => if is_space c then EmptyString else String c EmptyString
      | r => String c r
      end
  | EmptyString => EmptyString
  end.

(** [str.strip()] on ASCII text. *)
Definition strip (s : string) : string := rstrip (lstrip s).

Definition dquote : string := String "034"%char EmptyString.

Definition hex_digit (n : nat) : ascii :=
  ascii_of_nat (if decide (n < 10) then 48 + n else 87 + n).

(** JSON text of one character of a string. *)
Definition json_escape_char (c : ascii) : string :=
  let n := nat_of_ascii c in
  if decide (n = 34) then "\" +:+ dquote
  else if decide (n = 92) then "\\"
  else if decide (n = 8) then "\b"
  else if decide (n = 9) then "\t"
  else if decide (n = 10) then "\n"
  else if decide (n = 12) then "\f"
  else if decide (n = 13) then "\r"
  else if decide (n < 32)
       then "\u00" +:+ String (hex_digit (n / 16))
                        (String (hex_digit (n mod 16)) EmptyString)
       else String c EmptyString.

Fixpoint json_escape (s : string) : string :=
  match s with
  | EmptyString => EmptyString
  | String c s' => json_escape_char c +:+ json_escape s'
  end.

Definition json_string (s : string) : string :=
  dquote +:+ json_escape s +:+ dquote.

(** Reading back what [json_escape] writes: the text up to the closing
    quote, decoded, and what follows the quote. *)
Definition unescape_short (x : ascii) : option ascii :=
  match x with
  | "034"%char => Some "034"%char
  | "\"%char => Some "\"%char
  | "b"%char => Some "008"%char
  | "t"%char => Some "009"%char
  | "n"%char => Some "010"%char
  | "f"%char => Some "012"%char
  | "r"%char => Some "013"%char
  | _ => None
  end.

Definition hex_value (h : ascii) : option nat :=
  let n := nat_of_ascii h in
  if decide (48 ≤ n ∧ n < 58) then Some (n - 48)
  else if decide (97 ≤ n ∧ n < 103) then Some (n - 87)
  else None.

Definition cons_char (c : ascii) (p : option (string * string))
  : option (string * string) :=
  match p with
  | Some (s, r) => Some (String c s, r)
  | None => None
  end.

Fixpoint read_string_body (s : string) : option (string * string) :=
  match s with
  | EmptyString => None
  | String "034"%char r => Some (EmptyString, r)
  | String "\"%char (String "u"%char
      (String "0"%char (String "0"%char (String h1 (String h2 r))))) =>
      match hex_value h1, hex_value h2 with
      | Some n1, Some n2 =>
          cons_char (ascii_of_nat (16 * n1 + n2)) (read_string_body r)
      | _, _ => None
      end
  | String "\"%char (String x r) =>
      match unescape_short x with
      | Some c => cons_char c (read_string_body r)
      | None => None
      end
  | String "\"%char EmptyString => None
  | String c r => cons_char c (read_string_body r)
  end.

Definition json_string_list (l : list string) : string :=
  "[" +:+ String.concat "," (json_string <$> l) +:+ "]".

Definition json_key (k : string) : string := json_string k +:+ ":".

(** Compact JSON of a [DimensionTuple], fields in declaration order. *)
Definition model_dump_json (t : DimensionTuple) : string :=
  "{" +:+ json_key "occasion" +:+ json_string (occasion t) +:+ ","
      +:+ json_key "author_style" +:+ json_string (author_style t) +:+ ","
      +:+ json_key "ingredients" +:+ json_string_list (ingredients t) +:+ ","
      +:+ json_key "cooking_method" +:+ json_string (cooking_method t) +:+ "}".

(** A mocked completion endpoint that fails [fails] times, then answers
    [content]; and schema validators accepting a one-line answer. *)
Definition failing_then (fails : nat) (content : string)
    (messages : list message) (k : nat) : outcome string :=
  if decide (k < fails)
  then Raised (Exc "APIConnectionError" "connection reset")
  else Returned content.

Definition one_query (content : string) : outcome QueriesList :=
  Returned {| queries := [content] |}.

Definition hello : list message := [mk_message "user" "hello"].

Definition always_failing (messages : list message) (k : nat) : outcome string :=
  Raised (Exc "RateLimitError" "quota exceeded").

(** Pool task number [bad] never gets an answer; the others are answered at
    once, with a text naming the task. *)
Definition one_bad_task (bad : nat) (task : nat) :=
  if decide (task = bad)
  then always_failing
  else failing_then 0 ("recipe idea " +:+ str_of_nat task).

Definition two_queries (content : string) : outcome QueriesList :=
  Returned {| queries := [content; content +:+ " plz"] |}.

Definition prompt_of (t : DimensionTuple) : string :=
  "Generate queries for " +:+ occasion t.

(** Three tuples in the style of the prompt's examples. *)
Definition picnic : DimensionTuple :=
  {| occasion := "summer picnic"; author_style := "Hetty McKinnon";
     ingredients := ["tomato"; "zuchini"; "spinach"]; cooking_method := "no cook" |}.
Definition stew : DimensionTuple :=
  {| occasion := "dinner party"; author_style := "Eric Kim";
     ingredients := ["kimchi"]; cooking_method := "slow cooking" |}.
Definition brunch : DimensionTuple :=
  {| occasion := "brunch"; author_style := "Yotam Ottolenghi";
     ingredients := ["oats"; "chocolate"]; cooking_method := "no bake" |}.

Definition two_tuples (content : string) : outcome DimensionTuplesList :=
  Returned {| tuples := [picnic; stew] |}.

Definition OUTPUT_CSV_PATH : string := "synthetic_queries_for_analysis.csv".

(** A chat model that always suggests the same dish. *)
Definition SYSTEM_PROMPT : string := "You are an expert chef.".
Definition shakshuka (messages : list message) : outcome string :=
  Returned "  Try shakshuka.  ".

(** An environment with a credential, and a completion order: the futures
    finish last to first. *)
Definition environ : gmap string string := {["OPENAI_API_KEY" := "sk-test"]}.
Definition last_first (n : nat) : list nat := reverse (seq 0 n).

(** A recipe program that fails on its [bad]-th call and otherwise answers
    with a title made from the question. *)
Definition titled (bad : nat) (question : string) (k : nat) : outcome string :=
  if decide (k = bad)
  then Raised (Exc "ContextWindowExceededError" "too long")
  else Returned ("Recipe for: " +:+ question).

End Instances.

(** * Properties *)

(** ** Generic facts on computations *)

Lemma bind_returned {S A B} (m : prog S A) (k : A → prog S B) s a s' :
  m s = (Returned a, s') → (m ≫= k) s = k a s'.
Proof. intros H. unfold mbind, prog_bind, bind. by rewrite H. Qed.

Lemma bind_raised {S A B} (m : prog S A) (k : A → prog S B) s e s' :
  m s = (Raised e, s') → (m ≫= k) s = (Raised e, s').
Proof. intros H. unfold mbind, prog_bind, bind. by rewrite H. Qed.

(** ** Decimal text *)

Lemma uint_of_string_zeros p s d :
  NilEmpty.uint_of_string s = Some d →
  Nat.of_uint <$> NilEmpty.uint_of_string (zeros p +:+ s) = Some (Nat.of_uint d).
Proof.
  intros Hs. induction p as [|p IH].
  - change (zeros 0 +:+ s) with s. by rewrite Hs.
  - change (zeros (S p) +:+ s) with (String "0"%char (zeros p +:+ s)).
    simpl. destruct (NilEmpty.uint_of_string (zeros p +:+ s)) as [d'|] eqn:E;
      simpl in *; [|done].
    by injection IH as <-.
Qed.

Lemma str_of_nat_nonempty n : str_of_nat n ≠ EmptyString.
Proof.
  unfold str_of_nat. intros H.
  pose proof (NilEmpty.usu (Nat.to_uint n)) as Hu. rewrite H in Hu.
  simpl in Hu. injection Hu as Hu.
  pose proof (Unsigned.of_to n) as Hn. rewrite <- Hu in Hn.
  simpl in Hn. subst n. discriminate Hu.
Qed.

Lemma nat_of_str_format_03d n : nat_of_str (format_03d n) = Some n.
Proof.
  unfold nat_of_str, format_03d.
  assert (Nat.of_uint <$>
            NilEmpty.uint_of_string
              (zeros (3 - String.length (str_of_nat n)) +:+ str_of_nat n) = Some n)
    as Hval.
  { rewrite (uint_of_string_zeros _ _ (Nat.to_uint n)).
    - by rewrite Unsigned.of_to.
    - apply NilEmpty.usu. }
  destruct (zeros _ +:+ _) eqn:E; [|done].
  exfalso. destruct (3 - String.length (str_of_nat n)); [|done].
  by apply (str_of_nat_nonempty n).
Qed.

Lemma length_zeros p : String.length (zeros p) = p.
Proof. induction p; simpl; congruence. Qed.

Lemma string_length_app (s1 s2 : string) :
  String.length (s1 +:+ s2) = String.length s1 + String.length s2.
Proof.
  induction s1 as [|c s1 IH]; [done|].
  change (String c s1 +:+ s2) with (String c (s1 +:+ s2)). simpl. congruence.
Qed.

Lemma format_03d_length n : 3 ≤ String.length (format_03d n).
Proof.
  unfold format_03d. rewrite string_length_app, length_zeros. lia.
Qed.

Lemma format_03d_long n :
  3 ≤ String.length (str_of_nat n) → format_03d n = str_of_nat n.
Proof.
  intros H. unfold format_03d.
  by replace (3 - String.length (str_of_nat n)) with 0 by lia.
Qed.

(** ** The Structured LLM Caller *)

Module CallerFacts.
Import Synth.

Section call_llm.
Context {R : Type}.
Variable backend : list message → nat → outcome string.
Variable response_format : string → outcome R.
Variable messages : list message.

Local Abbreviation attempt := (attempt_outcome backend response_format messages).
Local Abbreviation after := (Synth.after messages).

Lemma attempt_body_run w :
  attempt_body backend response_format messages w
  = (attempt (n_calls w), after w 1 0).
Proof.
  unfold attempt_body, attempt_outcome, mbind, prog_bind, bind, completion,
    lift_outcome, after.
  simpl. rewrite app_nil_r. by destruct (backend messages (n_calls w)).
Qed.

(** [call_llm] is decided by the outcomes of the next three attempts. *)
Lemma call_llm_cases w :
  call_llm backend response_format messages w =
  match attempt (n_calls w) with
  | Returned r => (Returned (Some r), after w 1 0)
  | Raised _ =>
      match attempt (1 + n_calls w) with
      | Returned r => (Returned (Some r), after w 2 1)
      | Raised _ =>
          match attempt (2 + n_calls w) with
          | Returned r => (Returned (Some r), after w 3 2)
          | Raised e => (Raised e, after w 3 2)
          end
      end
  end.
Proof.
  unfold call_llm. simpl.
  unfold mbind, prog_bind, bind, try_except.
  rewrite attempt_body_run.
  destruct (attempt (n_calls w)) as [r0|e0]; [done|]. simpl.
  rewrite attempt_body_run. simpl.
  destruct (attempt (S (n_calls w))) as [r1|e1].
  { simpl. unfold after. simpl. by rewrite <- !app_assoc. }
  simpl. rewrite attempt_body_run. simpl.
  destruct (attempt (S (S (n_calls w)))) as [r2|e2];
    simpl; unfold after; simpl; by rewrite <- !app_assoc.
Qed.
(** What the future of a submitted [call_llm] holds. *)
Lemma call_llm_future_success k r :
  k < 3 → (∀ k', k' < k → is_raised (attempt k')) →
  attempt k = Returned r →
  future_result (call_llm backend response_format messages) = Returned (Some r).
Proof.
  intros Hk Hfail Hok. unfold future_result. rewrite call_llm_cases.
  change (n_calls init) with 0. change (1 + 0) with 1. change (2 + 0) with 2.
  destruct k as [|[|[|k]]]; [| | |lia].
  - by rewrite Hok.
  - pose proof (Hfail 0 ltac:(lia)) as H0.
    destruct (attempt 0); [done|]. by rewrite Hok.
  - pose proof (Hfail 0 ltac:(lia)) as H0.
    pose proof (Hfail 1 ltac:(lia)) as H1.
    destruct (attempt 0); [done|].
    destruct (attempt 1); [done|]. by rewrite Hok.
Qed.

Lemma call_llm_future_failure :
  (∀ k, k < 3 → is_raised (attempt k)) →
  ∃ e, attempt 2 = Raised e
       ∧ future_result (call_llm backend response_format messages) = Raised e.
Proof.
  intros Hfail.
  pose proof (Hfail 0 ltac:(lia)) as H0.
  pose proof (Hfail 1 ltac:(lia)) as H1.
  pose proof (Hfail 2 ltac:(lia)) as H2.
  destruct (attempt 2) as [r|e] eqn:E2; [done|].
  exists e. split; [done|]. unfold future_result. rewrite call_llm_cases.
  change (n_calls init) with 0. change (1 + 0) with 1. change (2 + 0) with 2.
  destruct (attempt 0); [done|].
  destruct (attempt 1); [done|].
  by rewrite E2.
Qed.
End call_llm.

(** C2. [call_llm] makes at most three completion requests, each sending the
    caller's messages, and sleeps one second after each failed attempt but
    the last.  If the first successful attempt is number [k < 3], it returns
    that attempt's parsed result after exactly [k + 1] requests and [k]
    sleeps; if all three attempts fail, it raises the exception of the third
    attempt.  It never falls off the loop (never returns [None]). *)
Theorem call_llm_retry {R} (backend : list message → nat → outcome string)
    (response_format : string → outcome R) (messages : list message) (w : world) :
  let attempt j := attempt_outcome backend response_format messages (j + n_calls w) in
  let run := call_llm backend response_format messages w in
  n_calls run.2 ≤ 3 + n_calls w
  ∧ sent run.2 = sent w ++ replicate (n_calls run.2 - n_calls w) messages
  ∧ run.1 ≠ Returned None
  ∧ (∀ k r, k < 3 → (∀ j, j < k → is_raised (attempt j)) →
       attempt k = Returned r →
       run.1 = Returned (Some r)
       ∧ n_calls run.2 = k + 1 + n_calls w
       ∧ sleeps run.2 = sleeps w ++ replicate k 1)
  ∧ (∀ e, (∀ j, j < 2 → is_raised (attempt j)) →
       attempt 2 = Raised e →
       run.1 = Raised e
       ∧ n_calls run.2 = 3 + n_calls w
       ∧ sleeps run.2 = sleeps w ++ [1; 1]).
Proof.
  intros attempt run. subst run. rewrite call_llm_cases.
  change (attempt_outcome backend response_format messages (n_calls w))
    with (attempt 0).
  change (attempt_outcome backend response_format messages (1 + n_calls w))
    with (attempt 1).
  change (attempt_outcome backend response_format messages (2 + n_calls w))
    with (attempt 2).
  destruct (attempt 0) as [r0|e0] eqn:E0;
    [|destruct (attempt 1) as [r1|e1] eqn:E1;
      [|destruct (attempt 2) as [r2|e2] eqn:E2]];
    unfold Synth.after; simpl.
  all: split; [lia|].
  all: split;
    [first [ by replace (S (n_calls w) - n_calls w) with 1 by lia
           | by replace (S (S (n_calls w)) - n_calls w) with 2 by lia
           | by replace (S (S (S (n_calls w))) - n_calls w) with 3 by lia ]|].
  all: split; [done|].
  all: split.
  all: match goal with
       | |- ∀ k r, k < 3 → _ =>
           intros k r Hk Hfail Hok; destruct k as [|[|[|k]]]; [| | |lia]
       | |- _ => intros e Hfail Hlast
       end.
  all: try (specialize (Hfail 0 ltac:(lia)); rewrite E0 in Hfail; done).
  all: try (specialize (Hfail 1 ltac:(lia)); rewrite E1 in Hfail; done).
  all: try congruence.
  all: rewrite ?app_nil_r; split_and!; (reflexivity || congruence || lia).
Qed.

Lemma call_llm_retry_witness :
  let run := call_llm (Instances.failing_then 2 "quick vegan dinner")
                      Instances.one_query Instances.hello init in
  run.1 = Returned (Some {| queries := ["quick vegan dinner"] |})
  ∧ n_calls run.2 = 3
  ∧ sleeps run.2 = [1; 1].
Proof.
  pose proof (call_llm_retry (Instances.failing_then 2 "quick vegan dinner")
                Instances.one_query Instances.hello init) as (_ & _ & _ & H & _).
  apply (H 2 {| queries := ["quick vegan dinner"] |}).
  - lia.
  - intros [|[|j]] Hj; [exact I | exact I | lia].
  - reflexivity.
Defined.

End CallerFacts.

(** ** Deduplication of dimension tuples *)

Module DedupFacts.
Import Synth.

Section dedup.
Variable model_dump_json : DimensionTuple → string.

Local Abbreviation ser := model_dump_json.
Local Abbreviation unique := (unique_tuples model_dump_json).
Local Abbreviation loop := (dedup_loop model_dump_json).

Lemma dedup_loop_snoc l t :
  loop (l ++ [t]) = dedup_step ser (loop l) t.
Proof. unfold dedup_loop. by rewrite foldl_app. Qed.

(** [seen] holds the serialisations of all tuples visited so far. *)
Lemma dedup_loop_seen l : (loop l).1 = list_to_set (ser <$> l).
Proof.
  induction l as [|t l IH] using rev_ind; [done|].
  rewrite dedup_loop_snoc, fmap_app, list_to_set_app_L. simpl.
  unfold dedup_step. rewrite IH.
  case_decide as Hin; simpl; [rewrite IH|]; set_solver.
Qed.

Lemma unique_snoc l t :
  unique (l ++ [t]) =
  unique l ++ (if decide (ser t ∈ ser <$> l) then [] else [t]).
Proof.
  unfold unique_tuples. rewrite dedup_loop_snoc. unfold dedup_step.
  rewrite dedup_loop_seen.
  destruct (decide (ser t ∈ ser <$> l)) as [Hin|Hin].
  - rewrite decide_True by set_solver. by rewrite app_nil_r.
  - by rewrite decide_False by set_solver.
Qed.

Lemma unique_nil : unique [] = [].
Proof. done. Qed.

Lemma unique_sublist l : sublist (unique l) l.
Proof.
  induction l as [|t l IH] using rev_ind; [done|].
  rewrite unique_snoc. case_decide.
  - rewrite app_nil_r. by apply sublist_inserts_r.
  - by apply sublist_app.
Qed.

Lemma unique_elem_of l t : t ∈ unique l → t ∈ l.
Proof. intros H. eapply elem_of_sublist; [done|apply unique_sublist]. Qed.

Lemma unique_ser_elem_of l s : s ∈ ser <$> unique l ↔ s ∈ ser <$> l.
Proof.
  induction l as [|t l IH] using rev_ind; [done|].
  rewrite unique_snoc, !fmap_app, !elem_of_app, IH.
  case_decide as Hin; simpl; set_solver.
Qed.

Lemma unique_ser_NoDup l : NoDup (ser <$> unique l).
Proof.
  induction l as [|t l IH] using rev_ind; [constructor|].
  rewrite unique_snoc. case_decide as Hin.
  - by rewrite app_nil_r.
  - rewrite fmap_app. apply NoDup_app. split_and!; [done| |apply NoDup_singleton].
    intros s Hs Hs'. apply list_elem_of_singleton in Hs' as ->.
    by apply Hin, unique_ser_elem_of.
Qed.

(** A list without two equal serialisations is left as it is. *)
Lemma unique_NoDup_id l : NoDup (ser <$> l) → unique l = l.
Proof.
  induction l as [|t l IH] using rev_ind; [done|].
  rewrite fmap_app. intros (Hl & Hdisj & _)%NoDup_app.
  rewrite unique_snoc, IH by done.
  rewrite decide_False; [done|].
  intros Hin. apply (Hdisj _ Hin). simpl. apply list_elem_of_here.
Qed.

Lemma unique_first_kept l1 t l2 :
  ser t ∉ ser <$> l1 →
  ∃ u2, unique (l1 ++ t :: l2) = unique l1 ++ t :: u2.
Proof.
  intros Hnew. induction l2 as [|x l2 [u2 IH]] using rev_ind.
  - exists []. rewrite unique_snoc. by rewrite decide_False.
  - replace (l1 ++ t :: l2 ++ [x]) with ((l1 ++ t :: l2) ++ [x])
      by by rewrite <- app_assoc.
    rewrite unique_snoc, IH. eexists. rewrite <- app_assoc. simpl. done.
Qed.

Lemma unique_later_dropped l1 t l2 :
  ser t ∈ ser <$> l1 →
  unique (l1 ++ t :: l2) = unique (l1 ++ l2).
Proof.
  intros Hold. induction l2 as [|x l2 IH] using rev_ind.
  - rewrite app_nil_r, unique_snoc. rewrite decide_True by done.
    by rewrite app_nil_r.
  - replace (l1 ++ t :: l2 ++ [x]) with ((l1 ++ t :: l2) ++ [x])
      by by rewrite <- app_assoc.
    rewrite (app_assoc l1 l2 [x]), !unique_snoc, IH. f_equal.
    apply decide_ext.
    rewrite !fmap_app, fmap_cons, !elem_of_app, elem_of_cons.
    split; [intros [?|[->|?]]; auto | intros [?|?]; auto].
Qed.

Lemma unique_idempotent l : unique (unique l) = unique l.
Proof. apply unique_NoDup_id, unique_ser_NoDup. Qed.

Lemma unique_ser_perm l l' :
  l ≡ₚ l' → ser <$> unique l ≡ₚ ser <$> unique l'.
Proof.
  intros Hp. apply NoDup_Permutation; [apply unique_ser_NoDup..|].
  intros s. rewrite !unique_ser_elem_of. by rewrite Hp.
Qed.

Lemma unique_perm l l' :
  (∀ a b, a ∈ l → b ∈ l → ser a = ser b → a = b) →
  l ≡ₚ l' → unique l ≡ₚ unique l'.
Proof.
  intros Hinj Hp.
  assert (∀ k k', k ≡ₚ k' → k ≡ₚ l → ∀ x, x ∈ unique k → x ∈ unique k')
    as Hincl.
  { intros k k' Hkk' Hkl x Hx.
    pose proof (unique_elem_of _ _ Hx) as Hxk.
    assert (ser x ∈ ser <$> unique k') as Hs.
    { apply unique_ser_elem_of. rewrite <- Hkk'. by apply list_elem_of_fmap_2. }
    apply list_elem_of_fmap in Hs as (y & Hxy & Hy).
    pose proof (unique_elem_of _ _ Hy) as Hyk.
    rewrite (Hinj x y); [done| | |done].
    - by rewrite <- Hkl.
    - by rewrite <- Hkl, Hkk'. }
  apply NoDup_Permutation.
  - eapply NoDup_fmap_1, unique_ser_NoDup.
  - eapply NoDup_fmap_1, unique_ser_NoDup.
  - intros x; split; [by apply Hincl|].
    apply Hincl; [done|by symmetry].
Qed.
End dedup.

(** C7. The deduplication loop compares tuples by their serialised form
    only: of two tuples the second is dropped exactly when both serialise to
    the same string.  Its output is a subsequence of the merged input (order
    of first appearance), holds no serialisation twice and holds every
    serialisation of the input; a tuple whose serialisation occurred earlier
    is dropped (the output is that of the input without it), and a tuple whose
    serialisation did not occur earlier is kept, right after the tuples kept
    from the input before it. *)
Theorem dedup_keeps_first_occurrences (model_dump_json : DimensionTuple → string) :
  let unique := unique_tuples model_dump_json in
  (∀ a b, unique [a; b] =
          if decide (model_dump_json a = model_dump_json b) then [a] else [a; b])
  ∧ (∀ all_tuples,
       sublist (unique all_tuples) all_tuples
       ∧ NoDup (model_dump_json <$> unique all_tuples)
       ∧ ∀ s, s ∈ model_dump_json <$> unique all_tuples
              ↔ s ∈ model_dump_json <$> all_tuples)
  ∧ (∀ l1 tup l2,
       model_dump_json tup ∈ model_dump_json <$> l1 →
       unique (l1 ++ tup :: l2) = unique (l1 ++ l2))
  ∧ (∀ l1 tup l2,
       model_dump_json tup ∉ model_dump_json <$> l1 →
       ∃ u2, unique (l1 ++ tup :: l2) = unique l1 ++ tup :: u2).
Proof.
  intros unique. subst unique. split_and!.
  - intros a b. change [a; b] with ([a] ++ [b]). rewrite unique_snoc.
    change (unique_tuples model_dump_json [a]) with [a]. simpl.
    destruct (decide (model_dump_json a = model_dump_json b)) as [Heq|Hne].
    + rewrite decide_True; [done|]. rewrite Heq. apply list_elem_of_here.
    + rewrite decide_False; [done|].
      intros Hin%list_elem_of_singleton. congruence.
  - intros l. split_and!.
    + apply unique_sublist.
    + apply unique_ser_NoDup.
    + apply unique_ser_elem_of.
  - apply unique_later_dropped.
  - apply unique_first_kept.
Qed.

Lemma dedup_keeps_first_occurrences_witness :
  unique_tuples Instances.model_dump_json
    ([Instances.picnic; Instances.stew] ++ Instances.picnic :: [Instances.brunch])
  = unique_tuples Instances.model_dump_json
      ([Instances.picnic; Instances.stew] ++ [Instances.brunch])
  ∧ ∃ u2, unique_tuples Instances.model_dump_json
            ([Instances.picnic] ++ Instances.stew :: [Instances.picnic])
          = unique_tuples Instances.model_dump_json [Instances.picnic]
            ++ Instances.stew :: u2.
Proof.
  destruct (dedup_keeps_first_occurrences Instances.model_dump_json)
    as (_ & _ & Hdrop & Hkeep).
  split.
  - apply Hdrop. vm_compute. apply list_elem_of_here.
  - apply Hkeep. vm_compute. intros H. by apply list_elem_of_singleton in H.
Defined.

(** C8. Deduplication is idempotent: applied to its own output, and more
    generally to any list without two equal serialisations, it returns the
    list unchanged.  The unique set does not depend on the order of the
    input: permuting the merged tuples, or the sub-results they come from,
    permutes the serialised forms of the output; when distinct tuples of the
    input serialise differently, the outputs themselves are permutations of
    each other. *)
Theorem dedup_idempotent (model_dump_json : DimensionTuple → string) :
  let unique := unique_tuples model_dump_json in
  (∀ l, unique (unique l) = unique l)
  ∧ (∀ l, NoDup (model_dump_json <$> l) → unique l = l)
  ∧ (∀ l l', l ≡ₚ l' →
       model_dump_json <$> unique l ≡ₚ model_dump_json <$> unique l')
  ∧ (∀ rs rs' : list DimensionTuplesList, rs ≡ₚ rs' →
       model_dump_json <$> unique (rs ≫= tuples)
       ≡ₚ model_dump_json <$> unique (rs' ≫= tuples))
  ∧ (∀ l l',
       (∀ a b, a ∈ l → b ∈ l → model_dump_json a = model_dump_json b → a = b) →
       l ≡ₚ l' → unique l ≡ₚ unique l').
Proof.
  intros unique. subst unique. split_and!.
  - apply unique_idempotent.
  - apply unique_NoDup_id.
  - apply unique_ser_perm.
  - intros rs rs' Hp. apply unique_ser_perm. by rewrite Hp.
  - apply unique_perm.
Qed.

Lemma dedup_idempotent_witness :
  unique_tuples Instances.model_dump_json [Instances.picnic; Instances.stew]
  = [Instances.picnic; Instances.stew]
  ∧ unique_tuples Instances.model_dump_json
      [Instances.picnic; Instances.stew; Instances.picnic]
    ≡ₚ unique_tuples Instances.model_dump_json
         [Instances.stew; Instances.picnic; Instances.picnic].
Proof.
  destruct (dedup_idempotent Instances.model_dump_json)
    as (_ & Hid & _ & _ & Hperm).
  split.
  - apply Hid. vm_compute. repeat constructor; set_solver.
  - apply Hperm.
    + intros a b Ha Hb. set_unfold.
      destruct Ha as [->|[->|[->|[]]]], Hb as [->|[->|[->|[]]]];
        vm_compute; congruence.
    + apply Permutation_swap.
Defined.

End DedupFacts.

(** ** The merge loop of [generate_queries_parallel] *)

Module MergeFacts.
Import Synth.

Lemma block_cons start t q qs :
  block start t (q :: qs) = new_query start q t :: block (S start) t qs.
Proof.
  unfold block. simpl. rewrite Nat.add_0_r. f_equal.
  apply imap_ext. intros k x _. simpl. f_equal. lia.
Qed.

Lemma length_block start t qs : length (block start t qs) = length qs.
Proof. apply length_imap. Qed.

Lemma number_app start p1 p2 :
  number start (p1 ++ p2) = number start p1 ++ number (start + length p1) p2.
Proof.
  unfold number. rewrite imap_app. f_equal.
  apply imap_ext. intros k x _. simpl. f_equal. lia.
Qed.

Lemma length_number start ps : length (number start ps) = length ps.
Proof. apply length_imap. Qed.

Lemma number_pairs start t qs :
  number start ((λ q, (q, t)) <$> qs) = block start t qs.
Proof. unfold number, block. by rewrite imap_fmap. Qed.

Lemma number_lookup start ps k r :
  number start ps !! k = Some r →
  ∃ p, ps !! k = Some p ∧ r = new_query (start + k) p.1 p.2.
Proof.
  unfold number. rewrite list_lookup_imap.
  destruct (ps !! k) as [p|]; simpl; [|done].
  intros [= <-]. eauto.
Qed.

Lemma pair_of_number start ps : pair_of <$> number start ps = ps.
Proof.
  revert start. induction ps as [|[q t] ps IH]; intros start; [done|].
  change ((q, t) :: ps) with ([(q, t)] ++ ps).
  rewrite number_app, fmap_app, IH. done.
Qed.

Lemma id_number_new_query k q t : id_number (id (new_query k q t)) = Some k.
Proof. simpl. apply nat_of_str_format_03d. Qed.

(** The inner loop appends one record per query, or stops at the first
    query when the tuple index is out of range. *)
Lemma append_queries_some ts i t qs l :
  ts !! i = Some t →
  append_queries ts i qs l
  = (Returned (), Locals (all_queries l ++ block (query_id l) t qs)
                         (query_id l + length qs)).
Proof.
  intros Ht. revert l. induction qs as [|q qs IH]; intros l.
  - simpl. rewrite app_nil_r, Nat.add_0_r. by destruct l.
  - simpl. rewrite Ht, IH. simpl.
    rewrite block_cons, <- app_assoc. simpl.
    rewrite Nat.add_1_r. do 2 f_equal. lia.
Qed.

Lemma append_queries_none ts i qs l :
  ts !! i = None →
  append_queries ts i qs l
  = (match qs with [] => Returned () | _ => Raised IndexError end, l).
Proof. intros Ht. destruct qs; simpl; by rewrite ?Ht. Qed.

(** The locals after one completed future. *)
Lemma merge_one_locals ts i result l w :
  ∃ w', merge_one ts i result l w
        = (Returned (Locals
             (all_queries l ++ number (query_id l) (contribution ts (i, result)))
             (query_id l + length (contribution ts (i, result)))), w')
        ∧ pbar w' = pbar w + 1
        ∧ files w' = files w.
Proof.
  unfold merge_one, contribution. simpl.
  destruct result as [qs|e].
  - destruct (ts !! i) as [t|] eqn:Ht.
    + rewrite (append_queries_some _ _ t) by done.
      rewrite number_pairs, length_fmap. eexists. split; [reflexivity|done].
    + rewrite append_queries_none by done.
      simpl. rewrite app_nil_r, Nat.add_0_r.
      destruct qs; destruct l; eexists; (split; [reflexivity|done]).
  - simpl. rewrite app_nil_r, Nat.add_0_r.
    destruct l; eexists; (split; [reflexivity|done]).
Qed.

Lemma merge_completed_locals ts completed l w :
  ∃ w', merge_completed ts completed l w
        = (Returned (Locals
             (all_queries l ++ number (query_id l) (emitted ts completed))
             (query_id l + length (emitted ts completed))), w')
        ∧ pbar w' = pbar w + length completed
        ∧ files w' = files w.
Proof.
  revert l w. induction completed as [|[i result] completed IH]; intros l w.
  - exists w. simpl. rewrite app_nil_r, !Nat.add_0_r. by destruct l.
  - simpl.
    destruct (merge_one_locals ts i result l w) as (w1 & Hone & Hp1 & Hf1).
    destruct (IH (Locals
                (all_queries l ++ number (query_id l) (contribution ts (i, result)))
                (query_id l + length (contribution ts (i, result)))) w1)
      as (w2 & Hrest & Hp2 & Hf2).
    exists w2. rewrite (bind_returned _ _ _ _ _ Hone), Hrest. simpl.
    unfold emitted. simpl. fold (emitted ts completed).
    rewrite number_app, length_app, <- app_assoc, Nat.add_assoc.
    split; [done|]. split; [lia|congruence].
Qed.

Lemma number_cons start p ps :
  number start (p :: ps) = new_query start p.1 p.2 :: number (S start) ps.
Proof.
  change (p :: ps) with ([p] ++ ps). rewrite number_app. simpl.
  by rewrite Nat.add_0_r, Nat.add_1_r.
Qed.

Lemma number_ids start ps :
  id <$> number start ps
  = (λ k, "SYN" +:+ format_03d k) <$> seq start (length ps).
Proof.
  revert start. induction ps as [|p ps IH]; intros start; [done|].
  rewrite number_cons. simpl. by rewrite IH.
Qed.

Lemma number_id_numbers start ps :
  (λ r, id_number (id r)) <$> number start ps = Some <$> seq start (length ps).
Proof.
  revert start. induction ps as [|p ps IH]; intros start; [done|].
  rewrite number_cons, fmap_cons, IH, id_number_new_query. done.
Qed.

Section tasks.
Variable queries_prompt : DimensionTuple → string.
Variable QueriesList_parse : string → outcome QueriesList.
Variable queries_backend : nat → list message → nat → outcome string.

Local Abbreviation gqft :=
  (generate_queries_for_tuple queries_prompt QueriesList_parse queries_backend).
Local Abbreviation gqp :=
  (generate_queries_parallel queries_prompt QueriesList_parse queries_backend).
Local Abbreviation futures :=
  (query_futures queries_prompt QueriesList_parse queries_backend).
Local Abbreviation pairs :=
  (task_pairs queries_prompt QueriesList_parse queries_backend).
Local Abbreviation attempt i t :=
  (attempt_outcome (queries_backend i) QueriesList_parse
     [mk_message "user" (queries_prompt t)]).

(** A sub-request never raises: its failures are caught and printed. *)
Lemma gqft_returns i t w : ∃ qs, (gqft i t w).1 = Returned qs.
Proof.
  unfold generate_queries_for_tuple, try_except, mbind, prog_bind, bind.
  rewrite CallerFacts.call_llm_cases.
  repeat (destruct (attempt_outcome _ _ _ _); simpl; eauto).
Qed.

Lemma gqft_success i t k r :
  k < 3 → (∀ k', k' < k → is_raised (attempt i t k')) →
  attempt i t k = Returned r →
  future_result (gqft i t) = Returned (queries r).
Proof.
  intros Hk Hfail Hok.
  unfold future_result, generate_queries_for_tuple, try_except, mbind,
    prog_bind, bind.
  rewrite CallerFacts.call_llm_cases.
  change (n_calls init) with 0. change (1 + 0) with 1. change (2 + 0) with 2.
  destruct k as [|[|[|k]]]; [| | |lia].
  - by rewrite Hok.
  - pose proof (Hfail 0 ltac:(lia)) as H0.
    destruct (attempt i t 0); [done|]. by rewrite Hok.
  - pose proof (Hfail 0 ltac:(lia)) as H0.
    pose proof (Hfail 1 ltac:(lia)) as H1.
    destruct (attempt i t 0); [done|].
    destruct (attempt i t 1); [done|]. by rewrite Hok.
Qed.

Lemma gqft_failure i t :
  (∀ k, k < 3 → is_raised (attempt i t k)) →
  ∃ e, attempt i t 2 = Raised e
       ∧ future_result (gqft i t) = Returned []
       ∧ stdout (future_world (gqft i t))
         = ["Error generating queries for tuple: " +:+ str_exc e].
Proof.
  intros Hfail.
  pose proof (Hfail 0 ltac:(lia)) as H0.
  pose proof (Hfail 1 ltac:(lia)) as H1.
  pose proof (Hfail 2 ltac:(lia)) as H2.
  destruct (attempt i t 2) as [r|e] eqn:E2; [done|].
  exists e. split; [done|].
  unfold future_result, future_world, generate_queries_for_tuple, try_except,
    mbind, prog_bind, bind.
  rewrite CallerFacts.call_llm_cases.
  change (n_calls init) with 0. change (1 + 0) with 1. change (2 + 0) with 2.
  destruct (attempt i t 0); [done|].
  destruct (attempt i t 1); [done|].
  by rewrite E2.
Qed.

Lemma query_futures_lookup ts i :
  futures ts !! i = (λ t, future_result (gqft i t)) <$> ts !! i.
Proof. unfold query_futures. by rewrite list_lookup_imap. Qed.

Lemma emitted_as_completed ts order :
  emitted ts (as_completed (futures ts) order) = order ≫= pairs ts.
Proof.
  unfold emitted, as_completed.
  induction order as [|i order IH]; [done|].
  simpl. rewrite query_futures_lookup. unfold task_pairs at 1, task_queries.
  destruct (ts !! i) as [t|] eqn:Ht; simpl; [|done].
  f_equal; [|apply IH]. unfold contribution. simpl. rewrite Ht.
  destruct (gqft_returns i t init) as [qs Hqs].
  unfold future_result. by rewrite Hqs.
Qed.

Lemma length_as_completed ts order :
  (∀ i, i ∈ order → i < length ts) →
  length (as_completed (futures ts) order) = length order.
Proof.
  unfold as_completed. induction order as [|i order IH]; intros Hin; [done|].
  simpl. rewrite query_futures_lookup.
  destruct (lookup_lt_is_Some_2 ts i) as [t Ht].
  { apply Hin. left. }
  rewrite Ht. simpl. f_equal. apply IH.
  intros i' Hi'. apply Hin. by right.
Qed.

(** The result of [generate_queries_parallel], in closed form. *)
Lemma gqp_run ts order w :
  ∃ w', gqp ts order w = (Returned (number 1 (order ≫= pairs ts)), w')
        ∧ pbar w' = pbar w + length (as_completed (futures ts) order)
        ∧ files w' = files w.
Proof.
  unfold generate_queries_parallel.
  destruct (merge_completed_locals ts (as_completed (futures ts) order)
              (Locals [] 1) (printed w
                 ["Generating " +:+ str_of_nat NUM_QUERIES_PER_TUPLE +:+
                  " queries each for " +:+ str_of_nat (length ts) +:+
                  " dimension tuples..."]))
    as (w' & Hrun & Hp & Hf).
  exists w'. split; [|done].
  unfold mbind, prog_bind, bind, print. unfold printed in Hrun.
  rewrite Hrun. simpl. by rewrite emitted_as_completed.
Qed.
End tasks.

(** C4. Whatever the completed futures hold and in whatever order they are
    merged, the loop never raises, and the ids of the emitted records, read in
    emission order, are ["SYN"] followed by the numbers 1, 2, ..., n with no
    gap: the [k]-th record carries number [k].  The same holds of
    [generate_queries_parallel] for every completion order. *)
Theorem ids_count_from_one :
  (∀ (dimension_tuples : list DimensionTuple)
     (completed : list (nat * outcome (list string))) (w : world),
     ∃ l' w',
       merge_completed dimension_tuples completed (Locals [] 1) w = (Returned l', w')
       ∧ id <$> all_queries l'
         = (λ k, "SYN" +:+ format_03d k) <$> seq 1 (length (all_queries l'))
       ∧ (λ r, id_number (id r)) <$> all_queries l'
         = Some <$> seq 1 (length (all_queries l'))
       ∧ query_id l' = S (length (all_queries l')))
  ∧ (∀ queries_prompt QueriesList_parse queries_backend
       (dimension_tuples : list DimensionTuple) (order : list nat) (w : world),
     ∃ out w',
       generate_queries_parallel queries_prompt QueriesList_parse queries_backend
         dimension_tuples order w = (Returned out, w')
       ∧ id <$> out = (λ k, "SYN" +:+ format_03d k) <$> seq 1 (length out)
       ∧ (λ r, id_number (id r)) <$> out = Some <$> seq 1 (length out)).
Proof.
  split.
  - intros ts completed w.
    destruct (merge_completed_locals ts completed (Locals [] 1) w)
      as (w' & Hrun & _).
    eexists _, w'. split; [exact Hrun|]. simpl.
    rewrite length_number. split_and!.
    + apply number_ids.
    + apply number_id_numbers.
    + done.
  - intros qp parse backend ts order w.
    destruct (gqp_run qp parse backend ts order w) as (w' & Hrun & _).
    eexists _, w'. split; [exact Hrun|].
    rewrite length_number. split.
    + apply number_ids.
    + apply number_id_numbers.
Qed.

(** C10. Every record emitted by [generate_queries_parallel] has the id
    ["SYN"] followed by its position counted from 1, written in decimal and
    zero-padded to at least three digits; it carries the tuple of the
    sub-request that returned its query, and the default values of the two
    other fields.  The records of the sub-request completed at some place of
    the completion order form one contiguous block: they follow the records
    of the sub-requests completed before it, are numbered consecutively, and
    keep the order in which the sub-request returned the query strings; the
    records of the sub-requests completed later follow. *)
Theorem records_form_blocks (queries_prompt : DimensionTuple → string)
    (QueriesList_parse : string → outcome QueriesList)
    (queries_backend : nat → list message → nat → outcome string)
    (dimension_tuples : list DimensionTuple) (order : list nat) (w : world) :
  let returned := task_queries queries_prompt QueriesList_parse queries_backend in
  let pairs := task_pairs queries_prompt QueriesList_parse queries_backend
                 dimension_tuples in
  ∃ out w',
    generate_queries_parallel queries_prompt QueriesList_parse queries_backend
      dimension_tuples order w = (Returned out, w')
    ∧ (∀ k r, out !! k = Some r →
         id r = "SYN" +:+ format_03d (S k)
         ∧ 3 ≤ String.length (format_03d (S k))
         ∧ nat_of_str (format_03d (S k)) = Some (S k)
         ∧ is_realistic_and_kept r = 1%Z
         ∧ notes_for_filtering r = EmptyString
         ∧ ∃ i t, i ∈ order ∧ dimension_tuples !! i = Some t
                  ∧ dimension_tuple r = t ∧ query r ∈ returned i t)
    ∧ (∀ o1 i o2 t,
         order = o1 ++ i :: o2 → dimension_tuples !! i = Some t →
         let before := number 1 (o1 ≫= pairs) in
         let first_id := S (length before) in
         out = before
               ++ block first_id t (returned i t)
               ++ number (first_id + length (returned i t)) (o2 ≫= pairs)).
Proof.
  intros returned pairs.
  destruct (gqp_run queries_prompt QueriesList_parse queries_backend
              dimension_tuples order w) as (w' & Hrun & _).
  eexists _, w'. split; [exact Hrun|]. split.
  - intros k r Hr. apply number_lookup in Hr as (p & Hp & ->).
    simpl. split_and!; try done.
    + apply format_03d_length.
    + apply nat_of_str_format_03d.
    + apply list_elem_of_lookup_2, list_elem_of_bind in Hp as (i & Hpi & Hi).
      unfold task_pairs in Hpi.
      destruct (dimension_tuples !! i) as [t|] eqn:Ht;
        [|by apply not_elem_of_nil in Hpi].
      apply list_elem_of_fmap in Hpi as (q & -> & Hq).
      by exists i, t.
  - intros o1 i o2 t -> Ht before first_id.
    subst before first_id pairs returned.
    assert (task_pairs queries_prompt QueriesList_parse queries_backend
              dimension_tuples i
            = (λ q, (q, t)) <$>
              task_queries queries_prompt QueriesList_parse queries_backend i t)
      as Hpi.
    { unfold task_pairs. by rewrite Ht. }
    rewrite bind_app, bind_cons, !number_app, length_number, Hpi.
    by rewrite number_pairs, length_fmap.
Qed.

Lemma records_form_blocks_witness :
  ∃ out w',
    generate_queries_parallel Instances.prompt_of Instances.two_queries
      (Instances.one_bad_task 7)
      [Instances.picnic; Instances.stew; Instances.brunch] [2; 0; 1] init
    = (Returned out, w')
    ∧ out = [ new_query 1 "recipe idea 2" Instances.brunch;
              new_query 2 "recipe idea 2 plz" Instances.brunch ]
            ++ block 3 Instances.picnic ["recipe idea 0"; "recipe idea 0 plz"]
            ++ [ new_query 5 "recipe idea 1" Instances.stew;
                 new_query 6 "recipe idea 1 plz" Instances.stew ].
Proof.
  destruct (records_form_blocks Instances.prompt_of Instances.two_queries
              (Instances.one_bad_task 7)
              [Instances.picnic; Instances.stew; Instances.brunch] [2; 0; 1] init)
    as (out & w' & Hrun & _ & Hblocks).
  exists out, w'. split; [exact Hrun|].
  exact (Hblocks [2] 0 [1] Instances.picnic eq_refl eq_refl).
Defined.

(** C9. When the sub-request of one tuple fails at all of its attempts while
    the sub-requests of the other tuples succeed within three attempts, the
    failed sub-request returns no query and prints the error, and
    [generate_queries_parallel] returns normally, for every completion order:
    its records are, in completion order, the queries of the other tuples
    only, each with its tuple, and the progress bar has advanced once per
    tuple.  In particular so for three tuples. *)
Theorem one_failed_tuple_is_skipped (queries_prompt : DimensionTuple → string)
    (QueriesList_parse : string → outcome QueriesList)
    (queries_backend : nat → list message → nat → outcome string)
    (dimension_tuples : list DimensionTuple) (order : list nat)
    (failed : nat) (rs : nat → QueriesList) (w : world) :
  let attempt i t :=
    attempt_outcome (queries_backend i) QueriesList_parse
      [mk_message "user" (queries_prompt t)] in
  let task i t :=
    generate_queries_for_tuple queries_prompt QueriesList_parse queries_backend i t in
  order ≡ₚ seq 0 (length dimension_tuples) →
  (∀ t k, dimension_tuples !! failed = Some t → is_raised (attempt failed t k)) →
  (∀ i t, i ≠ failed → dimension_tuples !! i = Some t →
     ∃ k, k < 3 ∧ (∀ k', k' < k → is_raised (attempt i t k'))
          ∧ attempt i t k = Returned (rs i)) →
  ∃ out w',
    generate_queries_parallel queries_prompt QueriesList_parse queries_backend
      dimension_tuples order w = (Returned out, w')
    ∧ pair_of <$> out
      = filter (λ i, i ≠ failed) order ≫=
          (λ i, match dimension_tuples !! i with
                | Some t => (λ q, (q, t)) <$> queries (rs i)
                | None => []
                end)
    ∧ pbar w' = pbar w + length dimension_tuples
    ∧ (∀ t, dimension_tuples !! failed = Some t →
         future_result (task failed t) = Returned []
         ∧ ∃ e, stdout (future_world (task failed t))
                = ["Error generating queries for tuple: " +:+ str_exc e]).
Proof.
  intros attempt task Hperm Hfail Hok.
  destruct (gqp_run queries_prompt QueriesList_parse queries_backend
              dimension_tuples order w) as (w' & Hrun & Hbar & _).
  eexists _, w'. split; [exact Hrun|]. split_and!.
  - rewrite pair_of_number. clear Hperm Hrun Hbar.
    induction order as [|i order IH]; [done|].
    rewrite bind_cons, IH. unfold task_pairs at 1, task_queries.
    destruct (decide (i = failed)) as [->|Hne].
    + rewrite filter_cons_False by (intros H; by apply H).
      destruct (dimension_tuples !! failed) as [t|] eqn:Ht; [|done].
      destruct (gqft_failure queries_prompt QueriesList_parse queries_backend
                  failed t) as (e & _ & Hres & _).
      { intros k _. by apply Hfail. }
      by rewrite Hres.
    + rewrite filter_cons_True, bind_cons by done. f_equal.
      destruct (dimension_tuples !! i) as [t|] eqn:Ht; [|done].
      destruct (Hok i t Hne Ht) as (k & Hk & Hbefore & Hat).
      by rewrite (gqft_success queries_prompt QueriesList_parse queries_backend
                    i t k (rs i)).
  - rewrite Hbar, length_as_completed.
    + by rewrite Hperm, length_seq.
    + intros i Hi. rewrite Hperm in Hi. apply elem_of_seq in Hi. lia.
  - intros t Ht.
    destruct (gqft_failure queries_prompt QueriesList_parse queries_backend
                failed t) as (e & _ & Hres & Hout).
    { intros k _. by apply Hfail. }
    split; [done|]. by exists e.
Qed.

Lemma one_failed_tuple_is_skipped_witness :
  ∃ out w',
    generate_queries_parallel Instances.prompt_of Instances.two_queries
      (Instances.one_bad_task 1)
      [Instances.picnic; Instances.stew; Instances.brunch] [2; 0; 1] init
    = (Returned out, w')
    ∧ pair_of <$> out
      = [ ("recipe idea 2", Instances.brunch);
          ("recipe idea 2 plz", Instances.brunch);
          ("recipe idea 0", Instances.picnic);
          ("recipe idea 0 plz", Instances.picnic) ]
    ∧ pbar w' = 3.
Proof.
  destruct (one_failed_tuple_is_skipped Instances.prompt_of Instances.two_queries
              (Instances.one_bad_task 1)
              [Instances.picnic; Instances.stew; Instances.brunch] [2; 0; 1] 1
              (λ i, {| queries := [ "recipe idea " +:+ str_of_nat i;
                                    "recipe idea " +:+ str_of_nat i +:+ " plz" ] |})
              init)
    as (out & w' & Hrun & Hout & Hbar & _).
  - simpl. apply (@perm_trans _ _ [0; 2; 1]); [apply perm_swap|apply perm_skip, perm_swap].
  - intros t k _. exact I.
  - intros i t Hi _. exists 0. split; [lia|]. split; [intros k' Hk'; lia|].
    unfold attempt_outcome, Instances.one_bad_task.
    by rewrite decide_False by done.
  - exists out, w'. split; [exact Hrun|]. split; [exact Hout|exact Hbar].
Defined.

End MergeFacts.

(** ** [generate_dimension_tuples] and [save_queries_to_csv] *)

Module PipelineFacts.
Import Synth.

Lemma collect_responses_returned {A} (rs : list A) w :
  collect_responses (Returned <$> rs) w = (Returned rs, w).
Proof.
  induction rs as [|r rs IH]; [done|].
  rewrite fmap_cons. cbn [collect_responses].
  unfold mbind, prog_bind, bind, lift_outcome. by rewrite IH.
Qed.

(** The first future that raised decides: its exception leaves the loop. *)
Lemma collect_responses_raised {A} (pre : list A) e post w :
  collect_responses ((Returned <$> pre) ++ Raised e :: post) w = (Raised e, w).
Proof.
  induction pre as [|r pre IH]; [done|].
  rewrite fmap_cons. cbn [collect_responses app].
  unfold mbind, prog_bind, bind, lift_outcome. by rewrite IH.
Qed.

Lemma extend_all_some rs acc w :
  extend_all (Some <$> rs) acc w = (Returned (acc ++ rs ≫= tuples), w).
Proof.
  revert acc. induction rs as [|r rs IH]; intros acc.
  - simpl. by rewrite app_nil_r.
  - rewrite fmap_cons. cbn [extend_all getattr].
    unfold mbind, prog_bind, bind, ret. rewrite IH.
    by rewrite bind_cons, <- app_assoc.
Qed.

(** C1, as the code has it.  [generate_dimension_tuples] never raises and
    submits five sub-requests; the future of a sub-request whose three
    attempts all fail holds the exception of the third, and the future of one
    that succeeds within three attempts holds its response.  When all five
    futures hold a response, the step returns the deduplicated concatenation
    of their tuples, in submission order.  When a future raised, the step
    stops at the first such future in submission order, prints its error and
    returns the empty list: the tuples of the other sub-requests are not
    returned. *)
Theorem generate_dimension_tuples_all_or_nothing
    (model_dump_json : DimensionTuple → string) (PROMPT : string)
    (DimensionTuplesList_parse : string → outcome DimensionTuplesList)
    (tuples_backend : nat → list message → nat → outcome string) (w : world) :
  let futures := tuple_futures PROMPT DimensionTuplesList_parse tuples_backend in
  let run := generate_dimension_tuples model_dump_json PROMPT
               DimensionTuplesList_parse tuples_backend w in
  let attempt j :=
    attempt_outcome (tuples_backend j) DimensionTuplesList_parse
      [mk_message "user" PROMPT] in
  length futures = 5
  ∧ (∀ j, j < 5 → (∀ k, k < 3 → is_raised (attempt j k)) →
       ∃ e, attempt j 2 = Raised e ∧ futures !! j = Some (Raised e))
  ∧ (∀ j k r, j < 5 → k < 3 → (∀ k', k' < k → is_raised (attempt j k')) →
       attempt j k = Returned r → futures !! j = Some (Returned (Some r)))
  ∧ (∃ unique, run.1 = Returned unique)
  ∧ (∀ rs, futures = (λ r, Returned (Some r)) <$> rs →
       run = (Returned (unique_tuples model_dump_json (rs ≫= tuples)),
              printed w
                [ "Generating dimension tuples in parallel...";
                  "Generated " +:+ str_of_nat (length (rs ≫= tuples))
                  +:+ " total tuples, "
                  +:+ str_of_nat (length (unique_tuples model_dump_json
                                            (rs ≫= tuples)))
                  +:+ " unique" ]))
  ∧ (∀ pre e post, futures = (Returned <$> pre) ++ Raised e :: post →
       run = (Returned [],
              printed w
                [ "Generating dimension tuples in parallel...";
                  "Error generating dimension tuples: " +:+ str_exc e ])).
Proof.
  intros futures run attempt. split; [done|].
  assert (∀ j, j < 5 →
            futures !! j
            = Some (future_result
                      (call_llm (tuples_backend j) DimensionTuplesList_parse
                         [mk_message "user" PROMPT]))) as Hfuture.
  { intros j Hj. subst futures. unfold tuple_futures.
    rewrite list_lookup_fmap, lookup_seq_lt by done. done. }
  split; [|split; [|split; [|split]]].
  - intros j Hj Hfail. rewrite Hfuture by done.
    destruct (CallerFacts.call_llm_future_failure (tuples_backend j)
                DimensionTuplesList_parse [mk_message "user" PROMPT] Hfail)
      as (e & He & Hres).
    exists e. by rewrite Hres.
  - intros j k r Hj Hk Hfail Hok. rewrite Hfuture by done.
    by rewrite (CallerFacts.call_llm_future_success (tuples_backend j)
                  DimensionTuplesList_parse [mk_message "user" PROMPT] k r).
  - subst run. unfold generate_dimension_tuples, try_except.
    match goal with
    | |- context [match ?body with _ => _ end] => destruct body as [[u|e] w']
    end; simpl; eauto.
  - intros rs Hrs. subst run. unfold generate_dimension_tuples, try_except.
    fold futures. rewrite Hrs. unfold mbind, prog_bind, bind, print.
    replace ((λ r, Returned (Some r)) <$> rs)
      with (Returned (A:=option DimensionTuplesList) <$> (Some <$> rs))
      by by rewrite <- list_fmap_compose.
    rewrite collect_responses_returned, extend_all_some. simpl.
    unfold printed. simpl. by rewrite <- app_assoc.
  - intros pre e post Hfut. subst run.
    unfold generate_dimension_tuples, try_except.
    fold futures. rewrite Hfut. unfold mbind, prog_bind, bind, print.
    rewrite collect_responses_raised. simpl.
    unfold printed. simpl. by rewrite <- app_assoc.
Qed.

Lemma generate_dimension_tuples_all_or_nothing_witness :
  (generate_dimension_tuples Instances.model_dump_json "PROMPT"
     Instances.two_tuples (Instances.one_bad_task 7) init).1
  = Returned [Instances.picnic; Instances.stew]
  ∧ generate_dimension_tuples Instances.model_dump_json "PROMPT"
      Instances.two_tuples (Instances.one_bad_task 2) init
    = (Returned [],
       printed init
         [ "Generating dimension tuples in parallel...";
           "Error generating dimension tuples: quota exceeded" ]).
Proof.
  destruct (generate_dimension_tuples_all_or_nothing Instances.model_dump_json
              "PROMPT" Instances.two_tuples (Instances.one_bad_task 7) init)
    as (_ & _ & _ & _ & Hall & _).
  destruct (generate_dimension_tuples_all_or_nothing Instances.model_dump_json
              "PROMPT" Instances.two_tuples (Instances.one_bad_task 2) init)
    as (_ & _ & _ & _ & _ & Hone).
  split.
  - rewrite (Hall (replicate 5 {| tuples := [Instances.picnic; Instances.stew] |}));
      [|by vm_compute].
    by vm_compute.
  - apply (Hone (replicate 2 (Some {| tuples := [Instances.picnic; Instances.stew] |}))
                (Exc "RateLimitError" "quota exceeded")
                (replicate 2 (Returned (Some {| tuples := [Instances.picnic;
                                                            Instances.stew] |})))).
    by vm_compute.
Defined.

(** The claim C1 as the specification states it fails: with the third
    sub-request failing and the four others returning two tuples each, the
    step returns the empty list, not the two tuples of the others. *)
Lemma single_failure_aborts_generation :
  let others := replicate 4 {| tuples := [Instances.picnic; Instances.stew] |} in
  let run := generate_dimension_tuples Instances.model_dump_json "PROMPT"
               Instances.two_tuples (Instances.one_bad_task 2) init in
  tuple_futures "PROMPT" Instances.two_tuples (Instances.one_bad_task 2)
  = [ Returned (Some {| tuples := [Instances.picnic; Instances.stew] |});
      Returned (Some {| tuples := [Instances.picnic; Instances.stew] |});
      Raised (Exc "RateLimitError" "quota exceeded");
      Returned (Some {| tuples := [Instances.picnic; Instances.stew] |});
      Returned (Some {| tuples := [Instances.picnic; Instances.stew] |}) ]
  ∧ unique_tuples Instances.model_dump_json (others ≫= tuples)
    = [Instances.picnic; Instances.stew]
  ∧ run.1 = Returned []
  ∧ run.1 ≠ Returned (unique_tuples Instances.model_dump_json (others ≫= tuples)).
Proof. vm_compute. split_and!; done. Qed.

(** C3, as the code has it.  Given no record, [save_queries_to_csv] prints
    ["No queries to save."] and returns normally: it raises nothing and
    writes no file.  Given at least one record, it writes one row per record
    to the output file, in order, then prints how many it saved. *)
Theorem save_queries_to_csv_writes_unless_empty
    (model_dump_json : DimensionTuple → string) (OUTPUT_CSV_PATH : string)
    (w : world) :
  save_queries_to_csv model_dump_json OUTPUT_CSV_PATH [] w
  = (Returned (), printed w ["No queries to save."])
  ∧ files (printed w ["No queries to save."]) = files w
  ∧ ∀ q qs,
      let run := save_queries_to_csv model_dump_json OUTPUT_CSV_PATH (q :: qs) w in
      run.1 = Returned ()
      ∧ files run.2
        = <[OUTPUT_CSV_PATH := row_of model_dump_json <$> (q :: qs)]> (files w)
      ∧ files run.2 !! OUTPUT_CSV_PATH
        = Some (row_of model_dump_json <$> (q :: qs))
      ∧ stdout run.2
        = stdout w ++ [ "Saved " +:+ str_of_nat (length (q :: qs))
                        +:+ " queries to " +:+ OUTPUT_CSV_PATH ].
Proof.
  split; [done|]. split; [done|].
  intros q qs run. subst run. simpl. split_and!; try done.
  apply lookup_insert_eq.
Qed.

(** The claim C3 as the specification states it fails: on the empty list
    the function returns; it raises no [EmptyResultError], nor anything. *)
Lemma save_nothing_raises_nothing :
  (save_queries_to_csv Instances.model_dump_json Instances.OUTPUT_CSV_PATH []
     init).1 = Returned ()
  ∧ ¬ is_raised
        (save_queries_to_csv Instances.model_dump_json Instances.OUTPUT_CSV_PATH
           [] init).1
  ∧ ¬ ∃ msg,
        (save_queries_to_csv Instances.model_dump_json Instances.OUTPUT_CSV_PATH
           [] init).1 = Raised (Exc "EmptyResultError" msg).
Proof.
  split_and!; [done|by intros []|by intros [msg [=]]].
Qed.

End PipelineFacts.

(** ** The chat backend *)

Module BackendFacts.
Import Backend.

Section get_agent_response.
Variable SYSTEM_PROMPT : string.
Variable strip : string → string.
Variable llm : list message → outcome string.

Local Abbreviation gar := (get_agent_response SYSTEM_PROMPT strip llm).
Local Abbreviation system_entry := (mk_message "system" SYSTEM_PROMPT).

Local Abbreviation current_of := (Backend.current_of SYSTEM_PROMPT).

Lemma needs_system_run msgs s :
  first_has_role msgs →
  needs_system msgs s = (Returned (negb (leading_system msgs)), s).
Proof.
  destruct msgs as [|first rest]; [done|].
  intros [role Hrole].
  unfold needs_system, getitem, leading_system, mbind, prog_bind, bind, ret.
  rewrite Hrole. simpl. repeat case_bool_decide; simplify_eq; done.
Qed.

Lemma needs_system_KeyError first rest s :
  first !! "role" = None →
  needs_system (first :: rest) s = (Raised (Exc "KeyError" "'role'"), s).
Proof. intros H. unfold needs_system, getitem. by rewrite H. Qed.

(** The run of [get_agent_response] on a well-formed conversation. *)
Lemma gar_run messages msgs s :
  heap s !! messages = Some msgs →
  first_has_role msgs →
  let cur := current_of msgs in
  let heap1 := if leading_system msgs then heap s else heap s ++ [cur] in
  gar messages s =
  match llm cur with
  | Returned content =>
      (Returned (length heap1),
       State (heap1 ++ [cur ++ [mk_message "assistant" (strip content)]])
             (requests s ++ [cur]))
  | Raised e => (Raised e, State heap1 (requests s ++ [cur]))
  end.
Proof.
  intros Hmsgs Hrole cur heap1. subst cur heap1.
  unfold get_agent_response, current_of.
  unfold mbind, prog_bind, bind. unfold deref at 1. rewrite Hmsgs.
  rewrite needs_system_run by done.
  destruct (leading_system msgs); simpl.
  - unfold litellm_completion, mbind, prog_bind, bind, deref, request. simpl.
    rewrite Hmsgs. destruct (llm msgs); simpl; [|done].
    rewrite Hmsgs. done.
  - unfold litellm_completion, mbind, prog_bind, bind, deref, request, alloc.
    simpl. rewrite !list_lookup_middle by done.
    destruct (llm (system_entry :: msgs)); simpl; [|done].
    rewrite list_lookup_middle by done. done.
Qed.

(** No list object that exists before the call is changed by it. *)
Lemma gar_frame messages s l v :
  heap s !! l = Some v → heap (gar messages s).2 !! l = Some v.
Proof.
  intros Hl. unfold get_agent_response, mbind, prog_bind, bind.
  unfold deref at 1.
  destruct (heap s !! messages) as [msgs|] eqn:Hmsgs; [|done].
  destruct (needs_system msgs s) as [[b|e] s1] eqn:Hneeds.
  2:{ destruct msgs as [|first rest]; [done|].
      unfold needs_system, getitem in Hneeds.
      destruct (first !! "role"); simpl in Hneeds; by injection Hneeds as _ <-. }
  assert (s1 = s) as ->.
  { destruct msgs as [|first rest]; [by injection Hneeds as _ <-|].
    unfold needs_system, getitem in Hneeds.
    destruct (first !! "role"); simpl in Hneeds; by injection Hneeds as _ <-. }
  destruct b; simpl.
  - unfold litellm_completion, mbind, prog_bind, bind, deref, request, alloc.
    simpl. rewrite !list_lookup_middle by done.
    destruct (llm _); simpl.
    + rewrite list_lookup_middle by done. simpl.
      apply lookup_app_l_Some. by apply lookup_app_l_Some.
    + by apply lookup_app_l_Some.
  - unfold litellm_completion, mbind, prog_bind, bind, deref, request, alloc.
    simpl. rewrite Hmsgs. destruct (llm _); simpl; [|done].
    rewrite Hmsgs. simpl. by apply lookup_app_l_Some.
Qed.
End get_agent_response.

(** C5, as the code has it.  Whatever the call does, every list object that
    existed before it, the caller's included, holds afterwards what it held
    before.  For a conversation whose first item, if any, has a role: when
    the model answers, [get_agent_response] returns a new list object,
    distinct from the caller's, holding the conversation handed to the model
    (the caller's, behind the default system entry when it did not begin with
    a system entry) followed by exactly one assistant entry with the stripped
    answer; when the model call raises, the exception reaches the caller. *)
Theorem get_agent_response_appends_reply (SYSTEM_PROMPT : string)
    (strip : string → string) (llm : list message → outcome string)
    (messages : loc) (s : state) :
  let run := get_agent_response SYSTEM_PROMPT strip llm messages s in
  (∀ l v, heap s !! l = Some v → heap run.2 !! l = Some v)
  ∧ (∀ msgs,
       heap s !! messages = Some msgs →
       first_has_role msgs →
       let current := current_of SYSTEM_PROMPT msgs in
       heap run.2 !! messages = Some msgs
       ∧ (∀ content, llm current = Returned content →
            ∃ updated_messages,
              run.1 = Returned updated_messages
              ∧ heap s !! updated_messages = None
              ∧ updated_messages ≠ messages
              ∧ heap run.2 !! updated_messages
                = Some (current ++ [mk_message "assistant" (strip content)]))
       ∧ (∀ e, llm current = Raised e → run.1 = Raised e)).
Proof.
  intros run.
  split; [intros l v; apply gar_frame|].
  intros msgs Hmsgs Hrole current.
  split; [by apply gar_frame|].
  subst run. rewrite (gar_run _ _ _ _ msgs) by done. fold current.
  split.
  - intros content ->. eexists. split; [reflexivity|]. simpl.
    assert (length (heap s) ≤
            length (if leading_system msgs then heap s else heap s ++ [current]))
      as Hlen.
    { destruct (leading_system msgs); [done|]. rewrite length_app. lia. }
    split_and!.
    + by apply lookup_ge_None.
    + apply lookup_lt_Some in Hmsgs. lia.
    + by apply list_lookup_middle.
  - by intros e ->.
Qed.

Lemma get_agent_response_appends_reply_witness :
  let hi := mk_message "user" "What can I cook?" in
  let s := State [[mk_message "system" "Be brief."; hi]] [] in
  let run := get_agent_response Instances.SYSTEM_PROMPT Instances.strip
               Instances.shakshuka 0 s in
  heap run.2 !! 0 = Some [mk_message "system" "Be brief."; hi]
  ∧ ∃ updated_messages,
      run.1 = Returned updated_messages
      ∧ heap s !! updated_messages = None
      ∧ updated_messages ≠ 0
      ∧ heap run.2 !! updated_messages
        = Some ([mk_message "system" "Be brief."; hi]
                ++ [mk_message "assistant" (Instances.strip "  Try shakshuka.  ")]).
Proof.
  intros hi s run.
  destruct (get_agent_response_appends_reply Instances.SYSTEM_PROMPT
              Instances.strip Instances.shakshuka 0 s)
    as (_ & Hwf).
  destruct (Hwf [mk_message "system" "Be brief."; hi])
    as (Hsame & Hret & _).
  - reflexivity.
  - by exists "system".
  - split; [exact Hsame|]. by apply Hret.
Defined.

(** The claim C5 as the specification states it fails on a conversation
    without a leading system entry: the returned list is not the caller's
    list with one entry appended, it begins with the system entry. *)
Lemma reply_to_bare_question_is_longer :
  let hi := mk_message "user" "What can I cook?" in
  let s := State [[hi]] [] in
  let run := get_agent_response Instances.SYSTEM_PROMPT Instances.strip
               Instances.shakshuka 0 s in
  run.1 = Returned 2
  ∧ heap run.2 !! 2
    = Some [ mk_message "system" Instances.SYSTEM_PROMPT; hi;
             mk_message "assistant" "Try shakshuka." ]
  ∧ ¬ ∃ reply, heap run.2 !! 2 = Some ([hi] ++ [mk_message "assistant" reply]).
Proof.
  intros hi s run. split; [reflexivity|]. split; [reflexivity|].
  intros [reply H]. apply (f_equal (fmap (M:=option) length)) in H.
  vm_compute in H. discriminate H.
Qed.

Lemma gar_requests SYSTEM_PROMPT strip llm messages msgs s :
  heap s !! messages = Some msgs →
  first_has_role msgs →
  requests (get_agent_response SYSTEM_PROMPT strip llm messages s).2
  = requests s ++ [current_of SYSTEM_PROMPT msgs].
Proof.
  intros Hmsgs Hrole. rewrite (gar_run _ _ _ _ msgs) by done.
  by destruct (llm _).
Qed.

(** C6.  The default system entry has role [system] and the fixed prompt as
    content.  [get_agent_response] makes one request to the model.  For the
    empty conversation and for a conversation whose first item has a role
    other than [system], the conversation sent is the caller's with the
    default system entry prepended; for a conversation whose first item has
    role [system], the conversation sent is the caller's, with nothing
    added. *)
Theorem system_entry_is_first (SYSTEM_PROMPT : string)
    (strip : string → string) (llm : list message → outcome string)
    (messages : loc) (msgs : list message) (s : state) :
  heap s !! messages = Some msgs →
  let system_entry := mk_message "system" SYSTEM_PROMPT in
  let run := get_agent_response SYSTEM_PROMPT strip llm messages s in
  (system_entry !! "role" = Some "system"
   ∧ system_entry !! "content" = Some SYSTEM_PROMPT)
  ∧ (msgs = [] → requests run.2 = requests s ++ [[system_entry]])
  ∧ (∀ first rest role,
       msgs = first :: rest → first !! "role" = Some role → role ≠ "system" →
       requests run.2 = requests s ++ [system_entry :: first :: rest])
  ∧ (∀ first rest,
       msgs = first :: rest → first !! "role" = Some "system" →
       requests run.2 = requests s ++ [first :: rest]).
Proof.
  intros Hmsgs system_entry run. split; [done|]. subst run. split_and!.
  - intros ->. by rewrite (gar_requests _ _ _ _ []).
  - intros first rest role -> Hrole Hne.
    rewrite (gar_requests _ _ _ _ (first :: rest)); [|done|by exists role].
    unfold current_of, leading_system. rewrite Hrole.
    rewrite bool_decide_false; [done|]. by intros [= ?].
  - intros first rest -> Hrole.
    rewrite (gar_requests _ _ _ _ (first :: rest)); [|done|by exists "system"].
    unfold current_of, leading_system. by rewrite Hrole.
Qed.

Lemma system_entry_is_first_witness :
  let hi := mk_message "user" "What can I cook?" in
  requests (get_agent_response Instances.SYSTEM_PROMPT Instances.strip
              Instances.shakshuka 0 (State [[hi]] [])).2
  = [[mk_message "system" Instances.SYSTEM_PROMPT; hi]]
  ∧ requests (get_agent_response Instances.SYSTEM_PROMPT Instances.strip
                Instances.shakshuka 0 (State [[]] [])).2
    = [[mk_message "system" Instances.SYSTEM_PROMPT]]
  ∧ requests (get_agent_response Instances.SYSTEM_PROMPT Instances.strip
                Instances.shakshuka 0
                (State [[mk_message "system" "Be brief."; hi]] [])).2
    = [[mk_message "system" "Be brief."; hi]].
Proof.
  intros hi. split_and!.
  - destruct (system_entry_is_first Instances.SYSTEM_PROMPT Instances.strip
                Instances.shakshuka 0 [hi] (State [[hi]] []) eq_refl)
      as (_ & _ & Hadd & _).
    apply (Hadd hi [] "user"); [reflexivity|reflexivity|done].
  - destruct (system_entry_is_first Instances.SYSTEM_PROMPT Instances.strip
                Instances.shakshuka 0 [] (State [[]] []) eq_refl)
      as (_ & Hempty & _).
    by apply Hempty.
  - destruct (system_entry_is_first Instances.SYSTEM_PROMPT Instances.strip
                Instances.shakshuka 0 [mk_message "system" "Be brief."; hi]
                (State [[mk_message "system" "Be brief."; hi]] []) eq_refl)
      as (_ & _ & _ & Hkeep).
    by apply (Hkeep (mk_message "system" "Be brief.") [hi]).
Defined.

End BackendFacts.

(** ** The reference serialiser distinguishes distinct tuples *)

Module SerialiserFacts.
Import Synth Instances.

Lemma append_cons c (s r : string) : String c s +:+ r = String c (s +:+ r).
Proof. reflexivity. Qed.

Lemma append_assoc (a b c : string) : (a +:+ b) +:+ c = a +:+ (b +:+ c).
Proof.
  induction a as [|x a IH]; [done|]. rewrite !append_cons. by rewrite IH.
Qed.

(** One escaped character is read back as that character. *)
Lemma read_escape_char c rest :
  read_string_body (json_escape_char c +:+ rest)
  = cons_char c (read_string_body rest).
Proof. by destruct c as [[] [] [] [] [] [] [] []]. Qed.

Lemma read_escape s rest :
  read_string_body (json_escape s +:+ dquote +:+ rest) = Some (s, rest).
Proof.
  induction s as [|c s IH]; [done|].
  change (json_escape (String c s)) with (json_escape_char c +:+ json_escape s).
  by rewrite append_assoc, read_escape_char, IH.
Qed.

(** A JSON string is delimited: what follows it is determined. *)
Lemma json_string_prefix s1 s2 r1 r2 :
  json_string s1 +:+ r1 = json_string s2 +:+ r2 → s1 = s2 ∧ r1 = r2.
Proof.
  unfold json_string, dquote at 1 3.
  rewrite !append_assoc, !append_cons.
  intros [= H]. apply (f_equal read_string_body) in H.
  change (EmptyString +:+ ?x) with x in H.
  rewrite !read_escape in H. by injection H.
Qed.

(** The items of a JSON array, then the closing bracket, then [rest]. *)
Lemma json_items_cons x l rest :
  String.concat "," (json_string <$> x :: l) +:+ "]" +:+ rest
  = json_string x +:+
    match l with
    | [] => "]" +:+ rest
    | _ => "," +:+ String.concat "," (json_string <$> l) +:+ "]" +:+ rest
    end.
Proof.
  destruct l as [|y l]; [done|].
  change (String.concat "," (json_string <$> x :: y :: l))
    with (json_string x +:+ "," +:+ String.concat "," (json_string <$> y :: l)).
  by rewrite !append_assoc.
Qed.

Lemma json_items_nil rest :
  String.concat "," (json_string <$> []) +:+ "]" +:+ rest = String "]"%char rest.
Proof. reflexivity. Qed.

Lemma json_string_head s rest :
  json_string s +:+ rest
  = String "034"%char (json_escape s +:+ dquote +:+ rest).
Proof. unfold json_string, dquote at 1. by rewrite !append_assoc. Qed.

Lemma json_items_prefix l1 l2 r1 r2 :
  String.concat "," (json_string <$> l1) +:+ "]" +:+ r1
  = String.concat "," (json_string <$> l2) +:+ "]" +:+ r2 →
  l1 = l2 ∧ r1 = r2.
Proof.
  revert l2. induction l1 as [|x1 l1 IH]; intros [|x2 l2].
  - rewrite !json_items_nil. by intros [= ->].
  - rewrite json_items_nil, json_items_cons, json_string_head. by intros [=].
  - rewrite json_items_nil, json_items_cons, json_string_head. by intros [=].
  - rewrite !json_items_cons. intros [-> Htail]%json_string_prefix.
    destruct l1 as [|y1 l1], l2 as [|y2 l2].
    + by apply (inj (String.app _)) in Htail as ->.
    + by injection Htail.
    + by injection Htail.
    + apply (inj (String.app _)) in Htail.
      by destruct (IH _ Htail) as [-> ->].
Qed.

Lemma json_string_list_prefix l1 l2 r1 r2 :
  json_string_list l1 +:+ r1 = json_string_list l2 +:+ r2 → l1 = l2 ∧ r1 = r2.
Proof.
  unfold json_string_list. rewrite !append_assoc.
  intros [= H]. change (EmptyString +:+ ?x) with x in H.
  by apply json_items_prefix.
Qed.

(** Distinct tuples have distinct serialisations. *)
#[global] Instance model_dump_json_inj : Inj (=) (=) model_dump_json.
Proof.
  intros [o1 a1 i1 c1] [o2 a2 i2 c2]. unfold model_dump_json. simpl.
  intros H.
  apply (inj (String.app _)), (inj (String.app _)) in H.
  apply json_string_prefix in H as [-> H].
  apply (inj (String.app _)), (inj (String.app _)) in H.
  apply json_string_prefix in H as [-> H].
  apply (inj (String.app _)), (inj (String.app _)) in H.
  apply json_string_list_prefix in H as [-> H].
  apply (inj (String.app _)), (inj (String.app _)) in H.
  apply json_string_prefix in H as [-> _].
  done.
Qed.

(** With this serialiser the unique tuples themselves do not depend on the
    order of the merged input. *)
Lemma reference_unique_perm l l' :
  l ≡ₚ l' →
  unique_tuples model_dump_json l ≡ₚ unique_tuples model_dump_json l'.
Proof.
  intros Hp. apply DedupFacts.unique_perm; [|done].
  intros a b _ _. apply (inj model_dump_json).
Qed.

End SerialiserFacts.

(** * Further properties of the code *)

(** ** Pacing and footprint of the retry loop *)

Module RetryFacts.
Import Synth.

(** X1. Whatever the endpoint answers, [call_llm] makes between one and
    three requests, and the sleeps it adds are one-second sleeps, one fewer
    than its requests; it prints nothing, leaves the progress bar alone and
    writes no file. *)
Theorem call_llm_paces_requests {R} (backend : list message → nat → outcome string)
    (response_format : string → outcome R) (messages : list message) (w : world) :
  let run := call_llm backend response_format messages w in
  ∃ c, 1 ≤ c ≤ 3
       ∧ n_calls run.2 = c + n_calls w
       ∧ sleeps run.2 = sleeps w ++ replicate (c - 1) 1
       ∧ stdout run.2 = stdout w
       ∧ pbar run.2 = pbar w
       ∧ files run.2 = files w.
Proof.
  intros run. subst run. rewrite CallerFacts.call_llm_cases.
  destruct (attempt_outcome _ _ _ (n_calls w));
    [exists 1; simpl; split_and!; done || lia|].
  destruct (attempt_outcome _ _ _ (1 + n_calls w));
    [exists 2; simpl; split_and!; done || lia|].
  destruct (attempt_outcome _ _ _ (2 + n_calls w));
    exists 3; simpl; split_and!; done || lia.
Qed.

(** X2. [generate_queries_for_tuple] never raises and writes no file.
    Either some attempt among the first three is the first to succeed: then
    it returns the queries of that attempt and prints nothing; or all three
    fail: then it returns the empty list and prints one line with the
    exception of the third attempt. *)
Theorem generate_queries_for_tuple_total (queries_prompt : DimensionTuple → string)
    (QueriesList_parse : string → outcome QueriesList)
    (queries_backend : nat → list message → nat → outcome string)
    (task : nat) (dimension_tuple : DimensionTuple) (w : world) :
  let attempt k :=
    attempt_outcome (queries_backend task) QueriesList_parse
      [mk_message "user" (queries_prompt dimension_tuple)] (k + n_calls w) in
  let run := generate_queries_for_tuple queries_prompt QueriesList_parse
               queries_backend task dimension_tuple w in
  ∃ qs, run.1 = Returned qs
    ∧ files run.2 = files w
    ∧ ((∃ k r, k < 3 ∧ (∀ k', k' < k → is_raised (attempt k'))
               ∧ attempt k = Returned r
               ∧ qs = queries r
               ∧ n_calls run.2 = k + 1 + n_calls w
               ∧ stdout run.2 = stdout w)
       ∨ (∃ e, (∀ k, k < 3 → is_raised (attempt k))
               ∧ attempt 2 = Raised e
               ∧ qs = []
               ∧ n_calls run.2 = 3 + n_calls w
               ∧ stdout run.2
                 = stdout w ++ ["Error generating queries for tuple: "
                                +:+ str_exc e])).
Proof.
  intros attempt run. subst run.
  unfold generate_queries_for_tuple, try_except, mbind, prog_bind, bind.
  rewrite CallerFacts.call_llm_cases.
  change (attempt_outcome (queries_backend task) QueriesList_parse
            [mk_message "user" (queries_prompt dimension_tuple)] (n_calls w))
    with (attempt 0).
  change (attempt_outcome (queries_backend task) QueriesList_parse
            [mk_message "user" (queries_prompt dimension_tuple)] (1 + n_calls w))
    with (attempt 1).
  change (attempt_outcome (queries_backend task) QueriesList_parse
            [mk_message "user" (queries_prompt dimension_tuple)] (2 + n_calls w))
    with (attempt 2).
  destruct (attempt 0) as [r0|e0] eqn:E0.
  { eexists. split; [reflexivity|]. split; [done|]. left. exists 0, r0.
    split_and!; try done; [lia|intros; lia]. }
  destruct (attempt 1) as [r1|e1] eqn:E1.
  { eexists. split; [reflexivity|]. split; [done|]. left. exists 1, r1.
    split_and!; try done; [lia|].
    intros [|k'] Hk'; [by rewrite E0|lia]. }
  destruct (attempt 2) as [r2|e2] eqn:E2.
  { eexists. split; [reflexivity|]. split; [done|]. left. exists 2, r2.
    split_and!; try done; [lia|].
    intros [|[|k']] Hk'; [by rewrite E0|by rewrite E1|lia]. }
  eexists. split; [reflexivity|]. split; [done|]. right. exists e2.
  split_and!; try done.
  intros [|[|[|k]]] Hk; [by rewrite E0|by rewrite E1|by rewrite E2|lia].
Qed.

End RetryFacts.

(** ** The deduplication loop and the tuple generation step *)

Module TupleStepFacts.
Import Synth.

Section dedup.
Variable model_dump_json : DimensionTuple → string.

Local Abbreviation ser := model_dump_json.
Local Abbreviation unique := (unique_tuples model_dump_json).
Local Abbreviation loop := (dedup_loop model_dump_json).

Lemma unique_length_size l :
  length (unique l) = size (list_to_set (C:=gset string) (ser <$> l)).
Proof.
  rewrite <- (length_fmap ser).
  rewrite <- (size_list_to_set (C:=gset string))
    by apply DedupFacts.unique_ser_NoDup.
  f_equal. apply set_eq. intros s.
  rewrite !elem_of_list_to_set. apply DedupFacts.unique_ser_elem_of.
Qed.

Lemma unique_length_mono l1 l2 :
  (∀ t, t ∈ l1 → ser t ∈ ser <$> l2) → length (unique l1) ≤ length (unique l2).
Proof.
  intros Hincl. rewrite !unique_length_size. apply subseteq_size.
  intros s. rewrite !elem_of_list_to_set.
  intros (t & -> & Ht)%list_elem_of_fmap. by apply Hincl.
Qed.
End dedup.

(** X3. The two variables of the deduplication loop stay in step: after any
    input, [seen] is exactly the set of serialisations of the tuples kept in
    [unique_tuples], and has as many elements as that list. *)
Theorem dedup_loop_in_step (model_dump_json : DimensionTuple → string)
    (all_tuples : list DimensionTuple) :
  let st := dedup_loop model_dump_json all_tuples in
  st.1 = list_to_set (model_dump_json <$> st.2)
  ∧ size st.1 = length st.2.
Proof.
  intros st. subst st. rewrite DedupFacts.dedup_loop_seen.
  change (dedup_loop model_dump_json all_tuples).2
    with (unique_tuples model_dump_json all_tuples).
  split; [|by rewrite unique_length_size].
  apply set_eq. intros s. rewrite !elem_of_list_to_set.
  symmetry. apply DedupFacts.unique_ser_elem_of.
Qed.

(** X4. Size bounds of the merge: the unique list is no longer than the
    merged input, it is empty only for an empty input, and it is at least as
    long as the unique list of any single response taken alone. *)
Theorem unique_count_bounds (model_dump_json : DimensionTuple → string)
    (rs : list DimensionTuplesList) :
  let unique := unique_tuples model_dump_json in
  length (unique (rs ≫= tuples)) ≤ length (rs ≫= tuples)
  ∧ (unique (rs ≫= tuples) = [] ↔ rs ≫= tuples = [])
  ∧ ∀ r, r ∈ rs → length (unique (tuples r)) ≤ length (unique (rs ≫= tuples)).
Proof.
  intros unique. subst unique. split_and!.
  - apply sublist_length, DedupFacts.unique_sublist.
  - split; [|by intros ->].
    intros Hnil. destruct (rs ≫= tuples) as [|t l] eqn:E; [done|].
    exfalso.
    assert (model_dump_json t ∈ model_dump_json <$> unique_tuples model_dump_json (t :: l))
      as Hin.
    { apply DedupFacts.unique_ser_elem_of, list_elem_of_fmap_2, list_elem_of_here. }
    rewrite Hnil in Hin. by apply not_elem_of_nil in Hin.
  - intros r Hr. apply unique_length_mono.
    intros t Ht. apply list_elem_of_fmap_2, list_elem_of_bind. eauto.
Qed.

Lemma collect_responses_cases {A} (futures : list (outcome A)) w :
  (∃ rs, futures = Returned <$> rs
         ∧ collect_responses futures w = (Returned rs, w))
  ∨ (∃ pre e post, futures = (Returned <$> pre) ++ Raised e :: post
                   ∧ collect_responses futures w = (Raised e, w)).
Proof.
  induction futures as [|[r|e] futures IH].
  - left. by exists [].
  - destruct IH as [(rs & -> & Hrun)|(pre & e & post & -> & Hrun)].
    + left. exists (r :: rs). split; [done|].
      apply (PipelineFacts.collect_responses_returned (r :: rs)).
    + right. exists (r :: pre), e, post. split; [done|].
      apply (PipelineFacts.collect_responses_raised (r :: pre)).
  - right. by exists [], e, futures.
Qed.

Lemma extend_all_cases rs acc w :
  (∃ rs', rs = Some <$> rs'
          ∧ extend_all rs acc w = (Returned (acc ++ rs' ≫= tuples), w))
  ∨ (∃ e, extend_all rs acc w = (Raised e, w)).
Proof.
  revert acc. induction rs as [|[r|] rs IH]; intros acc.
  - left. exists []. split; [done|]. simpl. by rewrite app_nil_r.
  - cbn [extend_all getattr]. unfold mbind, prog_bind, bind, ret.
    destruct (IH (acc ++ tuples r)) as [(rs' & -> & Hrun)|(e & Hrun)].
    + left. exists (r :: rs'). split; [done|].
      by rewrite Hrun, bind_cons, <- app_assoc.
    + right. exists e. by rewrite Hrun.
  - right. by eexists.
Qed.

(** The step returns the empty list, or all futures hold a response and it
    returns their deduplicated tuples; it only prints. *)
Lemma generate_dimension_tuples_run model_dump_json PROMPT parse backend w :
  ∃ u lines,
    generate_dimension_tuples model_dump_json PROMPT parse backend w
    = (Returned u, printed w lines)
    ∧ (u = []
       ∨ ∃ rs, tuple_futures PROMPT parse backend
               = (λ r, Returned (Some r)) <$> rs
               ∧ u = unique_tuples model_dump_json (rs ≫= tuples)).
Proof.
  unfold generate_dimension_tuples, try_except, mbind, prog_bind, bind, print.
  destruct (collect_responses_cases (tuple_futures PROMPT parse backend)
              (World (n_calls w) (sent w) (sleeps w)
                 (stdout w ++ ["Generating dimension tuples in parallel..."])
                 (pbar w) (files w)))
    as [(rs & Hfut & ->)|(pre & e & post & _ & ->)].
  2:{ eexists [], [_; _]. split; [|by left].
      simpl. unfold printed. simpl. by rewrite <- app_assoc. }
  destruct (extend_all_cases rs []
              (World (n_calls w) (sent w) (sleeps w)
                 (stdout w ++ ["Generating dimension tuples in parallel..."])
                 (pbar w) (files w)))
    as [(rs' & -> & ->)|(e & ->)].
  2:{ eexists [], [_; _]. split; [|by left].
      simpl. unfold printed. simpl. by rewrite <- app_assoc. }
  eexists _, [_; _]. split.
  - simpl. unfold printed. simpl. by rewrite <- app_assoc.
  - right. exists rs'. split; [|done].
    rewrite Hfut. by rewrite <- list_fmap_compose.
Qed.

(** X5. For every behaviour of the endpoint, [generate_dimension_tuples]
    returns, having only printed: it makes no request in its own thread and
    writes no file.  The tuples it returns have pairwise different
    serialisations, each of them was returned by a sub-request, and a
    non-empty result means that all five sub-requests succeeded. *)
Theorem generate_dimension_tuples_sound
    (model_dump_json : DimensionTuple → string) (PROMPT : string)
    (DimensionTuplesList_parse : string → outcome DimensionTuplesList)
    (tuples_backend : nat → list message → nat → outcome string) (w : world) :
  let futures := tuple_futures PROMPT DimensionTuplesList_parse tuples_backend in
  ∃ unique lines,
    generate_dimension_tuples model_dump_json PROMPT DimensionTuplesList_parse
      tuples_backend w = (Returned unique, printed w lines)
    ∧ NoDup (model_dump_json <$> unique)
    ∧ (∀ t, t ∈ unique →
         ∃ j r, futures !! j = Some (Returned (Some r)) ∧ t ∈ tuples r)
    ∧ (unique ≠ [] →
       ∀ j, j < 5 → ∃ r, futures !! j = Some (Returned (Some r))).
Proof.
  intros futures.
  destruct (generate_dimension_tuples_run model_dump_json PROMPT
              DimensionTuplesList_parse tuples_backend w)
    as (u & lines & Hrun & Hu).
  exists u, lines. split; [done|].
  destruct Hu as [->|(rs & Hfut & ->)].
  { split_and!; [constructor|by intros t ?%not_elem_of_nil|done]. }
  fold futures in Hfut. split_and!.
  - apply DedupFacts.unique_ser_NoDup.
  - intros t Ht%DedupFacts.unique_elem_of.
    apply list_elem_of_bind in Ht as (r & Ht & Hr).
    apply list_elem_of_lookup in Hr as (j & Hj).
    exists j, r. split; [|done]. by rewrite Hfut, list_lookup_fmap, Hj.
  - intros _ j Hj.
    assert (length rs = 5) as Hlen.
    { rewrite <- (length_fmap (λ r, Returned (Some r))), <- Hfut. done. }
    destruct (lookup_lt_is_Some_2 rs j) as [r Hr]; [lia|].
    exists r. by rewrite Hfut, list_lookup_fmap, Hr.
Qed.

End TupleStepFacts.

(** ** The query generation step *)

Module QueryStepFacts.
Import Synth.

Lemma syn_id_inj k1 k2 :
  "SYN" +:+ format_03d k1 = "SYN" +:+ format_03d k2 → k1 = k2.
Proof.
  intros H%(inj (String.app _)).
  apply (f_equal nat_of_str) in H. rewrite !nat_of_str_format_03d in H.
  by injection H.
Qed.

Lemma length_bind_sum {A B} (f : A → list B) (l : list A) :
  length (l ≫= f) = sum_list ((λ x, length (f x)) <$> l).
Proof.
  induction l as [|x l IH]; [done|].
  rewrite bind_cons, length_app, IH. done.
Qed.

(** A future that holds a list for a tuple in range is merged silently. *)
Lemma merge_one_quiet ts i t qs l w :
  ts !! i = Some t →
  ∃ l', merge_one ts i (Returned qs) l w
        = (Returned l',
           World (n_calls w) (sent w) (sleeps w) (stdout w) (pbar w + 1) (files w)).
Proof.
  intros Ht. unfold merge_one.
  rewrite (MergeFacts.append_queries_some _ _ t) by done.
  by eexists.
Qed.

Lemma merge_completed_quiet ts completed l w :
  Forall (λ c, is_Some (ts !! c.1) ∧ ¬ is_raised c.2) completed →
  ∃ l', merge_completed ts completed l w
        = (Returned l',
           World (n_calls w) (sent w) (sleeps w) (stdout w)
                 (pbar w + length completed) (files w)).
Proof.
  intros Hall. revert l w.
  induction Hall as [|[i res] completed [[t Ht] Hres] _ IH]; intros l w.
  - exists l. simpl. unfold ret. rewrite Nat.add_0_r. by destruct w.
  - destruct res as [qs|e]; [|by destruct Hres]. simpl in Ht.
    destruct (merge_one_quiet ts i t qs l w Ht) as [l1 Hone].
    destruct (IH l1 (World (n_calls w) (sent w) (sleeps w) (stdout w)
                        (pbar w + 1) (files w))) as [l2 Hrest].
    exists l2. cbn [merge_completed].
    rewrite (bind_returned _ _ _ _ _ Hone), Hrest. simpl.
    do 2 f_equal. lia.
Qed.

Section tasks.
Variable queries_prompt : DimensionTuple → string.
Variable QueriesList_parse : string → outcome QueriesList.
Variable queries_backend : nat → list message → nat → outcome string.

Local Abbreviation gqft :=
  (generate_queries_for_tuple queries_prompt QueriesList_parse queries_backend).
Local Abbreviation gqp :=
  (generate_queries_parallel queries_prompt QueriesList_parse queries_backend).
Local Abbreviation futures :=
  (query_futures queries_prompt QueriesList_parse queries_backend).

Lemma as_completed_quiet ts order :
  Forall (λ c, is_Some (ts !! c.1) ∧ ¬ is_raised c.2)
         (as_completed (futures ts) order).
Proof.
  unfold as_completed. induction order as [|i order IH]; [constructor|].
  cbn [omap list_omap]. rewrite MergeFacts.query_futures_lookup.
  destruct (ts !! i) as [t|] eqn:Ht; simpl; [|exact IH].
  constructor; [|exact IH]. simpl. split; [rewrite Ht; by eexists|].
  destruct (MergeFacts.gqft_returns queries_prompt QueriesList_parse
              queries_backend i t init) as [qs Hqs].
  unfold future_result. rewrite Hqs. by intros [].
Qed.

(** The whole effect of [generate_queries_parallel] on its own thread. *)
Lemma gqp_world ts order w :
  (gqp ts order w).2
  = World (n_calls w) (sent w) (sleeps w)
      (stdout w ++ ["Generating 5 queries each for "
                    +:+ str_of_nat (length ts) +:+ " dimension tuples..."])
      (pbar w + length (as_completed (futures ts) order)) (files w).
Proof.
  unfold generate_queries_parallel, mbind, prog_bind, bind, print.
  destruct (merge_completed_quiet ts (as_completed (futures ts) order)
              (Locals [] 1)
              (World (n_calls w) (sent w) (sleeps w)
                 (stdout w ++ ["Generating " +:+ str_of_nat NUM_QUERIES_PER_TUPLE
                               +:+ " queries each for "
                               +:+ str_of_nat (length ts)
                               +:+ " dimension tuples..."])
                 (pbar w) (files w)) (as_completed_quiet ts order))
    as [l' Hrun].
  rewrite Hrun. done.
Qed.
End tasks.

(** X6. The completion order of the query futures only decides which record
    gets which number: for two completion orders of the same futures, the
    (query, tuple) pairs of the two results are permutations of each other
    and the two id columns are equal.  The number of records is the total
    number of query strings the sub-requests returned: nothing is dropped or
    cut to [NUM_QUERIES_PER_TUPLE]. *)
Theorem completion_order_only_renumbers (queries_prompt : DimensionTuple → string)
    (QueriesList_parse : string → outcome QueriesList)
    (queries_backend : nat → list message → nat → outcome string)
    (dimension_tuples : list DimensionTuple) (order order' : list nat)
    (w w' : world) :
  order ≡ₚ order' →
  ∃ out out',
    (generate_queries_parallel queries_prompt QueriesList_parse queries_backend
       dimension_tuples order w).1 = Returned out
    ∧ (generate_queries_parallel queries_prompt QueriesList_parse queries_backend
         dimension_tuples order' w').1 = Returned out'
    ∧ pair_of <$> out ≡ₚ pair_of <$> out'
    ∧ id <$> out = id <$> out'
    ∧ length out
      = sum_list ((λ i, length (task_pairs queries_prompt QueriesList_parse
                                  queries_backend dimension_tuples i))
                  <$> order).
Proof.
  intros Hp.
  destruct (MergeFacts.gqp_run queries_prompt QueriesList_parse queries_backend
              dimension_tuples order w) as (w1 & Hrun & _).
  destruct (MergeFacts.gqp_run queries_prompt QueriesList_parse queries_backend
              dimension_tuples order' w') as (w1' & Hrun' & _).
  eexists _, _. rewrite Hrun, Hrun'. split; [done|]. split; [done|].
  split_and!.
  - rewrite !MergeFacts.pair_of_number. by rewrite Hp.
  - rewrite !MergeFacts.number_ids. by rewrite Hp.
  - by rewrite MergeFacts.length_number, length_bind_sum.
Qed.

Lemma completion_order_only_renumbers_witness :
  ∃ out out',
    (generate_queries_parallel Instances.prompt_of Instances.two_queries
       (Instances.one_bad_task 7)
       [Instances.picnic; Instances.stew] [1; 0] init).1 = Returned out
    ∧ (generate_queries_parallel Instances.prompt_of Instances.two_queries
         (Instances.one_bad_task 7)
         [Instances.picnic; Instances.stew] [0; 1] init).1 = Returned out'
    ∧ pair_of <$> out ≡ₚ pair_of <$> out'
    ∧ id <$> out = id <$> out'.
Proof.
  destruct (completion_order_only_renumbers Instances.prompt_of
              Instances.two_queries (Instances.one_bad_task 7)
              [Instances.picnic; Instances.stew] [1; 0] [0; 1] init init)
    as (out & out' & H1 & H2 & H3 & H4 & _).
  - apply perm_swap.
  - by exists out, out'.
Defined.

Lemma length_format_03d n :
  String.length (format_03d n) = 3 `max` String.length (str_of_nat n).
Proof. unfold format_03d. rewrite string_length_app, length_zeros. lia. Qed.

(** X7. The ids of the emitted records are pairwise different strings, for
    every completion order; the number in an id is never cut: the id of the
    [k]-th record has three characters more than the decimal text of [k], or
    six if that text is shorter than three digits. *)
Theorem ids_are_distinct (queries_prompt : DimensionTuple → string)
    (QueriesList_parse : string → outcome QueriesList)
    (queries_backend : nat → list message → nat → outcome string)
    (dimension_tuples : list DimensionTuple) (order : list nat) (w : world) :
  ∃ out,
    (generate_queries_parallel queries_prompt QueriesList_parse queries_backend
       dimension_tuples order w).1 = Returned out
    ∧ NoDup (id <$> out)
    ∧ ∀ k r, out !! k = Some r →
        String.length (id r) = 3 + (3 `max` String.length (str_of_nat (S k))).
Proof.
  destruct (MergeFacts.gqp_run queries_prompt QueriesList_parse queries_backend
              dimension_tuples order w) as (w1 & Hrun & _).
  eexists. rewrite Hrun. split; [done|]. split.
  - rewrite MergeFacts.number_ids. apply NoDup_fmap_2_strong; [|apply NoDup_seq].
    intros k1 k2 _ _. apply syn_id_inj.
  - intros k r (p & _ & ->)%MergeFacts.number_lookup. simpl.
    by rewrite <- length_format_03d.
Qed.


Lemma merge_loop_is_silent_world queries_prompt QueriesList_parse queries_backend
    dimension_tuples order w :
  order ≡ₚ seq 0 (length dimension_tuples) →
  (generate_queries_parallel queries_prompt QueriesList_parse queries_backend
     dimension_tuples order w).2
  = World (n_calls w) (sent w) (sleeps w)
      (stdout w ++ ["Generating 5 queries each for "
                    +:+ str_of_nat (length dimension_tuples)
                    +:+ " dimension tuples..."])
      (pbar w + length dimension_tuples) (files w).
Proof.
  intros Hp. rewrite gqp_world. do 2 f_equal.
  rewrite MergeFacts.length_as_completed.
  - by rewrite Hp, length_seq.
  - intros i Hi. rewrite Hp in Hi. apply elem_of_seq in Hi. lia.
Qed.

(** X8. When the futures complete in some order of all the submitted ones,
    the merging thread prints its opening line and nothing else, so the
    line of the exception branch of the merge loop is never printed; the
    progress bar advances once per tuple, and the thread makes no request,
    sleeps never and writes no file. *)
Theorem merge_loop_is_silent (queries_prompt : DimensionTuple → string)
    (QueriesList_parse : string → outcome QueriesList)
    (queries_backend : nat → list message → nat → outcome string)
    (dimension_tuples : list DimensionTuple) (order : list nat) (w : world) :
  order ≡ₚ seq 0 (length dimension_tuples) →
  (generate_queries_parallel queries_prompt QueriesList_parse queries_backend
     dimension_tuples order w).2
  = World (n_calls w) (sent w) (sleeps w)
      (stdout w ++ ["Generating 5 queries each for "
                    +:+ str_of_nat (length dimension_tuples)
                    +:+ " dimension tuples..."])
      (pbar w + length dimension_tuples) (files w).
Proof.
  intros Hp. rewrite gqp_world. do 2 f_equal.
  rewrite MergeFacts.length_as_completed.
  - by rewrite Hp, length_seq.
  - intros i Hi. rewrite Hp in Hi. apply elem_of_seq in Hi. lia.
Qed.

Lemma merge_loop_is_silent_witness :
  (generate_queries_parallel Instances.prompt_of Instances.two_queries
     (Instances.one_bad_task 1)
     [Instances.picnic; Instances.stew] [1; 0] init).2
  = World 0 [] []
      ["Generating 5 queries each for 2 dimension tuples..."] 2 ∅.
Proof.
  apply (merge_loop_is_silent Instances.prompt_of Instances.two_queries
           (Instances.one_bad_task 1) [Instances.picnic; Instances.stew]
           [1; 0] init).
  apply perm_swap.
Defined.

End QueryStepFacts.

(** ** Persisting and the entry point of the pipeline *)

Module PersistFacts.
Import Synth.

(** X9. Flattening loses nothing: when different tuples have different
    serialisations, the rows written determine the records, so two lists of
    records with the same rows are equal. *)
Theorem rows_determine_records (model_dump_json : DimensionTuple → string)
    (qs1 qs2 : list QueryWithDimensions) :
  (∀ a b, model_dump_json a = model_dump_json b → a = b) →
  row_of model_dump_json <$> qs1 = row_of model_dump_json <$> qs2 →
  qs1 = qs2.
Proof.
  intros Hinj. revert qs2.
  induction qs1 as [|q1 qs1 IH]; intros [|q2 qs2]; try done.
  rewrite !fmap_cons. intros [= Hid Hq Ht Hk Hn Hrest].
  f_equal; [|by apply IH].
  destruct q1, q2; simpl in *. apply Hinj in Ht. by subst.
Qed.

Lemma rows_determine_records_witness :
  [new_query 1 "need lunch!" Instances.picnic]
  = [ {| id := "SYN001"; query := "need lunch!";
         dimension_tuple := Instances.picnic;
         is_realistic_and_kept := 1; notes_for_filtering := EmptyString |} ].
Proof.
  apply (rows_determine_records Instances.model_dump_json).
  - intros a b. apply (inj Instances.model_dump_json).
  - reflexivity.
Defined.

(** X10. [save_queries_to_csv] touches no other path than the output path,
    and it replaces, never appends: after two saves in a row the file holds
    the rows of the second list alone; if the second list is empty the rows
    of the first remain, and if both are empty the file is as before. *)
Theorem save_replaces_the_file (model_dump_json : DimensionTuple → string)
    (OUTPUT_CSV_PATH : string) (qs1 qs2 : list QueryWithDimensions) (w : world) :
  let save := save_queries_to_csv model_dump_json OUTPUT_CSV_PATH in
  let w2 := (save qs2 (save qs1 w).2).2 in
  (∀ path, path ≠ OUTPUT_CSV_PATH → files w2 !! path = files w !! path)
  ∧ files w2 !! OUTPUT_CSV_PATH
    = match qs2, qs1 with
      | [], [] => files w !! OUTPUT_CSV_PATH
      | [], _ => Some (row_of model_dump_json <$> qs1)
      | _, _ => Some (row_of model_dump_json <$> qs2)
      end.
Proof.
  intros save w2. subst save w2. split.
  - intros path Hne. destruct qs1, qs2; simpl; by rewrite ?lookup_insert_ne.
  - destruct qs1, qs2; simpl; by rewrite ?lookup_insert_eq.
Qed.

End PersistFacts.

Module MainFacts.
Import Synth SynthMain.

Section main.
Variable model_dump_json : DimensionTuple → string.
Variable PROMPT : string.
Variable queries_prompt : DimensionTuple → string.
Variable DimensionTuplesList_parse : string → outcome DimensionTuplesList.
Variable QueriesList_parse : string → outcome QueriesList.
Variable tuples_backend : nat → list message → nat → outcome string.
Variable queries_backend : nat → list message → nat → outcome string.
Variable OUTPUT_CSV_PATH : string.
Variable environ : gmap string string.
Variable schedule : nat → list nat.
Variable elapsed : string.

Local Abbreviation main :=
  (SynthMain.main model_dump_json PROMPT queries_prompt DimensionTuplesList_parse
     QueriesList_parse tuples_backend queries_backend OUTPUT_CSV_PATH environ
     schedule elapsed).
Local Abbreviation step2 :=
  (SynthMain.step2 model_dump_json queries_prompt QueriesList_parse
     queries_backend OUTPUT_CSV_PATH schedule elapsed).
Local Abbreviation gdt :=
  (generate_dimension_tuples model_dump_json PROMPT DimensionTuplesList_parse
     tuples_backend).
Local Abbreviation futures :=
  (tuple_futures PROMPT DimensionTuplesList_parse tuples_backend).
Local Abbreviation records u :=
  (number 1 (schedule (length u) ≫=
               task_pairs queries_prompt QueriesList_parse queries_backend u)).

(** The files after step 2 on the tuples [u]. *)
Lemma step2_files u w :
  files (step2 u w).2
  = match records u with
    | [] => files w
    | _ => <[OUTPUT_CSV_PATH := row_of model_dump_json <$> records u]> (files w)
    end.
Proof.
  set (out := records u).
  unfold SynthMain.step2, mbind at 1 2 3, prog_bind, bind, print.
  match goal with
  | |- context [generate_queries_parallel ?a ?b ?c ?d ?e ?w0] =>
      destruct (MergeFacts.gqp_run a b c d e w0) as (w1 & Hrun & _ & Hfiles);
      rewrite Hrun
  end.
  fold out. simpl in Hfiles.
  destruct out as [|r out]; simpl; by rewrite Hfiles.
Qed.

Lemma gdt_raised pre e post w :
  futures = (Returned <$> pre) ++ Raised e :: post →
  gdt w = (Returned [],
           printed w [ "Generating dimension tuples in parallel...";
                       "Error generating dimension tuples: " +:+ str_exc e ]).
Proof.
  intros Hfut. unfold generate_dimension_tuples, try_except.
  rewrite Hfut. unfold mbind, prog_bind, bind, print.
  rewrite PipelineFacts.collect_responses_raised. simpl.
  unfold printed. simpl. by rewrite <- app_assoc.
Qed.


(** [main] with the credential present: step 1, then the rest. *)
Lemma main_run key u w1 w :
  environ !! "OPENAI_API_KEY" = Some key →
  gdt (printed w ["Step 1: Generating dimension tuples..."]) = (Returned u, w1) →
  main w = match u with
           | [] => print "Failed to generate dimension tuples. Exiting." w1
           | _ => step2 u w1
           end.
Proof.
  intros Hkey Hrun. unfold SynthMain.main. rewrite Hkey.
  unfold mbind at 1, prog_bind, bind at 1, print at 1.
  unfold mbind at 1, prog_bind, bind at 1.
  unfold printed in Hrun. rewrite Hrun. by destruct u.
Qed.

Lemma main_files w :
  files (main w).2 = files w
  ∨ ∃ u lines,
      is_Some (environ !! "OPENAI_API_KEY")
      ∧ gdt (printed w ["Step 1: Generating dimension tuples..."])
        = (Returned u, printed (printed w ["Step 1: Generating dimension tuples..."])
                         lines)
      ∧ records u ≠ []
      ∧ files (main w).2
        = <[OUTPUT_CSV_PATH := row_of model_dump_json <$> records u]> (files w).
Proof.
  destruct (environ !! "OPENAI_API_KEY") as [key|] eqn:Hkey.
  2:{ left. unfold SynthMain.main. by rewrite Hkey. }
  destruct (TupleStepFacts.generate_dimension_tuples_run model_dump_json PROMPT
              DimensionTuplesList_parse tuples_backend
              (printed w ["Step 1: Generating dimension tuples..."]))
    as (u & lines & Hrun & _).
  rewrite (main_run key u _ w Hkey Hrun).
  destruct u as [|t u]; [by left|].
  rewrite step2_files.
  destruct (records (t :: u)) as [|r out] eqn:Hrec; [by left|].
  right. exists (t :: u), lines. rewrite Hrec. split_and!; done.
Qed.
End main.

(** X11. [main] stops early in two cases.  Without [OPENAI_API_KEY] in the
    environment it prints one error line and does nothing else.  With the
    credential, when one of the five tuple sub-requests failed, it prints the
    error of the first failed one and the exit message, and neither runs
    step 2 nor writes a file. *)
Theorem main_stops_early (model_dump_json : DimensionTuple → string)
    (PROMPT : string) (queries_prompt : DimensionTuple → string)
    (DimensionTuplesList_parse : string → outcome DimensionTuplesList)
    (QueriesList_parse : string → outcome QueriesList)
    (tuples_backend queries_backend : nat → list message → nat → outcome string)
    (OUTPUT_CSV_PATH : string) (environ : gmap string string)
    (schedule : nat → list nat) (elapsed : string) (w : world) :
  let run := SynthMain.main model_dump_json PROMPT queries_prompt
               DimensionTuplesList_parse QueriesList_parse tuples_backend
               queries_backend OUTPUT_CSV_PATH environ schedule elapsed w in
  (environ !! "OPENAI_API_KEY" = None →
   run = (Returned (),
          printed w ["Error: OPENAI_API_KEY environment variable not set."]))
  ∧ (∀ pre e post,
       is_Some (environ !! "OPENAI_API_KEY") →
       tuple_futures PROMPT DimensionTuplesList_parse tuples_backend
       = (Returned <$> pre) ++ Raised e :: post →
       run = (Returned (),
              printed w
                [ "Step 1: Generating dimension tuples...";
                  "Generating dimension tuples in parallel...";
                  "Error generating dimension tuples: " +:+ str_exc e;
                  "Failed to generate dimension tuples. Exiting." ])).
Proof.
  intros run. subst run. split.
  - intros Hkey. unfold SynthMain.main. by rewrite Hkey.
  - intros pre e post [key Hkey] Hfut.
    rewrite (main_run _ _ _ _ _ _ _ _ _ _ _ key [] _ w Hkey
               (gdt_raised _ _ _ _ pre e post _ Hfut)).
    unfold print, printed. simpl. by rewrite <- !app_assoc.
Qed.

Lemma main_stops_early_witness :
  SynthMain.main Instances.model_dump_json "PROMPT" Instances.prompt_of
    Instances.two_tuples Instances.two_queries (Instances.one_bad_task 2)
    (Instances.one_bad_task 7) Instances.OUTPUT_CSV_PATH ∅
    Instances.last_first "1.50" init
  = (Returned (),
     printed init ["Error: OPENAI_API_KEY environment variable not set."])
  ∧ SynthMain.main Instances.model_dump_json "PROMPT" Instances.prompt_of
      Instances.two_tuples Instances.two_queries (Instances.one_bad_task 2)
      (Instances.one_bad_task 7) Instances.OUTPUT_CSV_PATH Instances.environ
      Instances.last_first "1.50" init
    = (Returned (),
       printed init
         [ "Step 1: Generating dimension tuples...";
           "Generating dimension tuples in parallel...";
           "Error generating dimension tuples: quota exceeded";
           "Failed to generate dimension tuples. Exiting." ]).
Proof.
  destruct (main_stops_early Instances.model_dump_json "PROMPT"
              Instances.prompt_of Instances.two_tuples Instances.two_queries
              (Instances.one_bad_task 2) (Instances.one_bad_task 7)
              Instances.OUTPUT_CSV_PATH ∅ Instances.last_first "1.50" init)
    as [Hnokey _].
  destruct (main_stops_early Instances.model_dump_json "PROMPT"
              Instances.prompt_of Instances.two_tuples Instances.two_queries
              (Instances.one_bad_task 2) (Instances.one_bad_task 7)
              Instances.OUTPUT_CSV_PATH Instances.environ Instances.last_first
              "1.50" init)
    as [_ Hfailed].
  split.
  - by apply Hnokey.
  - apply (Hfailed
             (replicate 2 (Some {| tuples := [Instances.picnic; Instances.stew] |}))
             (Exc "RateLimitError" "quota exceeded")
             (replicate 2 (Returned (Some {| tuples := [Instances.picnic;
                                                         Instances.stew] |})))).
    + by eexists.
    + by vm_compute.
Defined.

(** X12. The only file [main] may change is the output file, and it changes
    it only once it holds the credential, tuples and at least one query.
    The rows then written are never empty; their ids are ["SYN"] followed by
    1, 2, ... in row order; and the tuple column of each row is the
    serialisation of one of the tuples step 1 returned, which have pairwise
    different serialisations. *)
Theorem main_output_file (model_dump_json : DimensionTuple → string)
    (PROMPT : string) (queries_prompt : DimensionTuple → string)
    (DimensionTuplesList_parse : string → outcome DimensionTuplesList)
    (QueriesList_parse : string → outcome QueriesList)
    (tuples_backend queries_backend : nat → list message → nat → outcome string)
    (OUTPUT_CSV_PATH : string) (environ : gmap string string)
    (schedule : nat → list nat) (elapsed : string) (w : world) :
  let run := SynthMain.main model_dump_json PROMPT queries_prompt
               DimensionTuplesList_parse QueriesList_parse tuples_backend
               queries_backend OUTPUT_CSV_PATH environ schedule elapsed w in
  (∀ path, path ≠ OUTPUT_CSV_PATH → files run.2 !! path = files w !! path)
  ∧ (files run.2 = files w
     ∨ ∃ u rows,
         is_Some (environ !! "OPENAI_API_KEY")
         ∧ (generate_dimension_tuples model_dump_json PROMPT
              DimensionTuplesList_parse tuples_backend
              (printed w ["Step 1: Generating dimension tuples..."])).1
           = Returned u
         ∧ NoDup (model_dump_json <$> u)
         ∧ rows ≠ []
         ∧ files run.2 = <[OUTPUT_CSV_PATH := rows]> (files w)
         ∧ col_id <$> rows
           = (λ k, "SYN" +:+ format_03d k) <$> seq 1 (length rows)
         ∧ ∀ row, row ∈ rows →
             ∃ t, t ∈ u ∧ col_dimension_tuple_json row = model_dump_json t).
Proof.
  intros run. subst run.
  destruct (main_files model_dump_json PROMPT queries_prompt
              DimensionTuplesList_parse QueriesList_parse tuples_backend
              queries_backend OUTPUT_CSV_PATH environ schedule elapsed w)
    as [Hsame|(u & lines & Hkey & Hrun & Hne & Hfiles)].
  { split; [by rewrite Hsame|by left]. }
  split; [intros path Hpath; by rewrite Hfiles, lookup_insert_ne|].
  right. eexists u, _. split; [done|]. split; [by rewrite Hrun|].
  split_and!; [| |exact Hfiles| |].
  - destruct (TupleStepFacts.generate_dimension_tuples_run model_dump_json PROMPT
                DimensionTuplesList_parse tuples_backend
                (printed w ["Step 1: Generating dimension tuples..."]))
      as (u' & lines' & Hrun' & Hu).
    rewrite Hrun in Hrun'. injection Hrun' as <- _.
    destruct Hu as [->|(rs & _ & ->)]; [constructor|].
    apply DedupFacts.unique_ser_NoDup.
  - intros Hnil. apply Hne. by destruct (number 1 _).
  - rewrite <- list_fmap_compose, length_fmap, MergeFacts.length_number,
      <- MergeFacts.number_ids.
    by apply list_fmap_ext.
  - intros row (r & -> & Hr)%list_elem_of_fmap.
    apply list_elem_of_lookup in Hr as (k & Hk).
    apply MergeFacts.number_lookup in Hk as (p & Hp & ->).
    apply list_elem_of_lookup_2, list_elem_of_bind in Hp as (i & Hpi & _).
    unfold task_pairs in Hpi.
    destruct (u !! i) as [t|] eqn:Ht; [|by apply not_elem_of_nil in Hpi].
    apply list_elem_of_fmap in Hpi as (q & -> & _).
    exists t. split; [by eapply list_elem_of_lookup_2|done].
Qed.




End MainFacts.

(** ** Turns of the chat backend *)

Module ChatFacts.
Import Backend.

Lemma leading_system_current SYSTEM_PROMPT msgs extra :
  leading_system (current_of SYSTEM_PROMPT msgs ++ extra) = true.
Proof.
  unfold current_of. destruct (leading_system msgs) eqn:Hlead; [|done].
  destruct msgs as [|first rest]; [done|]. exact Hlead.
Qed.

(** X14. On a well-formed conversation the model answers, the returned
    conversation begins with an entry of role [system], ends with the new
    assistant entry, and is one entry longer than the input when the input
    began with a system entry, two entries longer otherwise.  It, and every
    conversation that extends it, already begins with a system entry, so
    that a later call sends it as it is. *)
Theorem returned_conversation_shape (SYSTEM_PROMPT : string)
    (strip : string → string) (llm : list message → outcome string)
    (messages : loc) (msgs : list message) (s : state) (content : string) :
  heap s !! messages = Some msgs →
  first_has_role msgs →
  llm (current_of SYSTEM_PROMPT msgs) = Returned content →
  let run := get_agent_response SYSTEM_PROMPT strip llm messages s in
  ∃ updated_messages returned first,
    run.1 = Returned updated_messages
    ∧ heap run.2 !! updated_messages = Some returned
    ∧ head returned = Some first
    ∧ first !! "role" = Some "system"
    ∧ last returned = Some (mk_message "assistant" (strip content))
    ∧ length returned
      = length msgs + (if leading_system msgs then 1 else 2)
    ∧ ∀ extra, current_of SYSTEM_PROMPT (returned ++ extra) = returned ++ extra.
Proof.
  intros Hmsgs Hrole Hllm run. subst run.
  rewrite (BackendFacts.gar_run _ _ _ _ msgs) by done. rewrite Hllm.
  set (cur := current_of SYSTEM_PROMPT msgs).
  assert (∃ first, head cur = Some first ∧ first !! "role" = Some "system")
    as (first & Hhead & Hfirst).
  { subst cur. unfold current_of.
    destruct (leading_system msgs) eqn:Hlead; [|by eexists].
    destruct msgs as [|first rest]; [done|]. exists first. split; [done|].
    simpl in Hlead. by apply bool_decide_eq_true in Hlead. }
  eexists _, (cur ++ [mk_message "assistant" (strip content)]), first.
  split; [reflexivity|]. simpl. split_and!.
  - by apply list_lookup_middle.
  - destruct cur; [done|]. exact Hhead.
  - done.
  - apply last_snoc.
  - rewrite length_app. subst cur. unfold current_of.
    destruct (leading_system msgs); simpl; lia.
  - intros extra. unfold current_of at 1.
    rewrite <- app_assoc. subst cur. by rewrite leading_system_current.
Qed.

Lemma returned_conversation_shape_witness :
  let hi := mk_message "user" "What can I cook?" in
  let run := get_agent_response Instances.SYSTEM_PROMPT Instances.strip
               Instances.shakshuka 0 (State [[hi]] []) in
  ∃ updated_messages returned first,
    run.1 = Returned updated_messages
    ∧ heap run.2 !! updated_messages = Some returned
    ∧ head returned = Some first
    ∧ first !! "role" = Some "system"
    ∧ length returned = 3.
Proof.
  intros hi run.
  destruct (returned_conversation_shape Instances.SYSTEM_PROMPT Instances.strip
              Instances.shakshuka 0 [hi] (State [[hi]] []) "  Try shakshuka.  ")
    as (loc1 & returned & first & H1 & H2 & H3 & H4 & _ & H6 & _).
  - reflexivity.
  - by exists "user".
  - reflexivity.
  - by exists loc1, returned, first.
Defined.

(** X15. Two turns in a row.  When [get_agent_response] is called on the
    reference it returned, and the model answers again, the second result is
    the first result followed by exactly one more assistant entry: no second
    system entry appears.  The first result and the caller's original list
    are still what they were, and the two conversations sent to the model
    are the first conversation and the first result. *)
Theorem two_turns (SYSTEM_PROMPT : string) (strip : string → string)
    (llm : list message → outcome string) (messages : loc)
    (msgs : list message) (s : state) (content1 content2 : string) :
  let current := current_of SYSTEM_PROMPT msgs in
  let result1 := current ++ [mk_message "assistant" (strip content1)] in
  let run1 := get_agent_response SYSTEM_PROMPT strip llm messages s in
  heap s !! messages = Some msgs →
  first_has_role msgs →
  llm current = Returned content1 →
  llm result1 = Returned content2 →
  ∃ updated1 updated2,
    run1.1 = Returned updated1
    ∧ (get_agent_response SYSTEM_PROMPT strip llm updated1 run1.2).1
      = Returned updated2
    ∧ let s2 := (get_agent_response SYSTEM_PROMPT strip llm updated1 run1.2).2 in
      heap s2 !! updated2
      = Some (result1 ++ [mk_message "assistant" (strip content2)])
      ∧ heap s2 !! updated1 = Some result1
      ∧ heap s2 !! messages = Some msgs
      ∧ requests s2 = requests s ++ [current; result1].
Proof.
  intros current result1 run1 Hmsgs Hrole Hllm1 Hllm2. subst run1.
  rewrite (BackendFacts.gar_run _ _ _ _ msgs) by done.
  fold current. rewrite Hllm1.
  set (heap1 := if leading_system msgs then heap s else heap s ++ [current]).
  fold result1. eexists (length heap1), _. split; [reflexivity|].
  assert (first_has_role result1) as Hrole1.
  { subst result1 current. unfold current_of.
    destruct (leading_system msgs) eqn:Hlead; [|by eexists].
    destruct msgs as [|first rest]; [done|]. exact Hrole. }
  assert (leading_system result1 = true) as Hlead1.
  { apply leading_system_current. }
  assert (current_of SYSTEM_PROMPT result1 = result1) as Hcur1.
  { unfold current_of. by rewrite Hlead1. }
  simpl.
  rewrite (BackendFacts.gar_run _ _ _ _ result1);
    [|by apply list_lookup_middle|done].
  rewrite Hlead1, Hcur1, Hllm2. simpl.
  split; [reflexivity|]. split_and!.
  - by apply list_lookup_middle.
  - apply lookup_app_l_Some. by apply list_lookup_middle.
  - do 2 apply lookup_app_l_Some. subst heap1.
    destruct (leading_system msgs); [done|]. by apply lookup_app_l_Some.
  - by rewrite <- app_assoc.
Qed.

Lemma two_turns_witness :
  let hi := mk_message "user" "What can I cook?" in
  let s := State [[hi]] [] in
  let run1 := get_agent_response Instances.SYSTEM_PROMPT Instances.strip
                Instances.shakshuka 0 s in
  ∃ updated1 updated2,
    run1.1 = Returned updated1
    ∧ (get_agent_response Instances.SYSTEM_PROMPT Instances.strip
         Instances.shakshuka updated1 run1.2).1 = Returned updated2
    ∧ heap (get_agent_response Instances.SYSTEM_PROMPT Instances.strip
              Instances.shakshuka updated1 run1.2).2 !! updated2
      = Some [ mk_message "system" Instances.SYSTEM_PROMPT; hi;
               mk_message "assistant" "Try shakshuka.";
               mk_message "assistant" "Try shakshuka." ].
Proof.
  intros hi s run1.
  destruct (two_turns Instances.SYSTEM_PROMPT Instances.strip
              Instances.shakshuka 0 [hi] s "  Try shakshuka.  "
              "  Try shakshuka.  ")
    as (u1 & u2 & H1 & H2 & H3 & _).
  - reflexivity.
  - by exists "user".
  - reflexivity.
  - reflexivity.
  - exists u1, u2. split; [exact H1|]. split; [exact H2|]. exact H3.
Defined.

(** X16. The two ways a call fails.  When the first item of the
    conversation has no ["role"] key, the call raises [KeyError] having done
    nothing: no request is sent and no list is created.  When the model call
    raises, the exception reaches the caller after exactly one request, and
    no list with an assistant entry was created: the heap holds at most the
    one new list carrying the system entry. *)
Theorem failed_calls (SYSTEM_PROMPT : string) (strip : string → string)
    (llm : list message → outcome string) (messages : loc)
    (msgs : list message) (s : state) :
  heap s !! messages = Some msgs →
  let run := get_agent_response SYSTEM_PROMPT strip llm messages s in
  (∀ first rest, msgs = first :: rest → first !! "role" = None →
     run = (Raised (Exc "KeyError" "'role'"), s))
  ∧ (∀ e, first_has_role msgs →
       llm (current_of SYSTEM_PROMPT msgs) = Raised e →
       run.1 = Raised e
       ∧ requests run.2 = requests s ++ [current_of SYSTEM_PROMPT msgs]
       ∧ heap run.2
         = if leading_system msgs then heap s
           else heap s ++ [mk_message "system" SYSTEM_PROMPT :: msgs]).
Proof.
  intros Hmsgs run. subst run. split.
  - intros first rest -> Hnone.
    unfold get_agent_response, mbind, prog_bind, bind, deref.
    rewrite Hmsgs. by rewrite BackendFacts.needs_system_KeyError.
  - intros e Hrole Hllm.
    rewrite (BackendFacts.gar_run _ _ _ _ msgs) by done. rewrite Hllm. simpl.
    split_and!; try done.
    unfold current_of. by destruct (leading_system msgs).
Qed.

Lemma failed_calls_witness :
  let untyped : message := <["content" := "hello"]> ∅ in
  get_agent_response Instances.SYSTEM_PROMPT Instances.strip
    Instances.shakshuka 0 (State [[untyped]] [])
  = (Raised (Exc "KeyError" "'role'"), State [[untyped]] []).
Proof.
  intros untyped.
  destruct (failed_calls Instances.SYSTEM_PROMPT Instances.strip
              Instances.shakshuka 0 [untyped] (State [[untyped]] []) eq_refl)
    as [Hkey _].
  by apply (Hkey untyped []).
Defined.

End ChatFacts.

(** ** Batch generation of recipes *)

Module RecipeFacts.
Import Recipes.

Section recipes.
Variable program : string → nat → outcome string.

Local Abbreviation comprehension := (Recipes.comprehension program).
Local Abbreviation get_responses := (Recipes.get_responses program).

Lemma asking_nil w : asking w [] = w.
Proof. unfold asking. rewrite app_nil_r. by destruct w. Qed.

Lemma asking_asking w qs1 qs2 : asking (asking w qs1) qs2 = asking w (qs1 ++ qs2).
Proof. unfold asking. simpl. by rewrite app_assoc. Qed.

Lemma generate_run q w :
  generate program q w = (program q (length (asked w)), asking w [q]).
Proof. reflexivity. Qed.

(** The comprehension stops at the first call that raises. *)
Lemma comprehension_cases queries w :
  (∃ recipes,
     length recipes = length queries
     ∧ (∀ k q r, queries !! k = Some q → recipes !! k = Some r →
          program q (length (asked w) + k) = Returned r)
     ∧ comprehension queries w
       = (Returned (zip_with mk_response queries recipes), asking w queries))
  ∨ (∃ pre q post e,
       queries = pre ++ q :: post
       ∧ (∀ k q', pre !! k = Some q' →
            ¬ is_raised (program q' (length (asked w) + k)))
       ∧ program q (length (asked w) + length pre) = Raised e
       ∧ comprehension queries w = (Raised e, asking w (pre ++ [q]))).
Proof.
  revert w. induction queries as [|q queries IH]; intros w.
  { left. exists []. split; [done|]. split; [done|].
    simpl. unfold ret. by rewrite asking_nil. }
  cbn [Recipes.comprehension]. unfold mbind, prog_bind, bind.
  rewrite generate_run.
  destruct (program q (length (asked w))) as [r|e] eqn:Hq.
  2:{ right. exists [], q, queries, e. split; [done|]. split; [done|].
      split; [by rewrite Nat.add_0_r|done]. }
  destruct (IH (asking w [q]))
    as [(recipes & Hlen & Hall & Hrun)|(pre & q' & post & e & -> & Hpre & Hq' & Hrun)].
  - left. exists (r :: recipes). split; [simpl; by rewrite Hlen|]. split.
    + intros [|k] q0 r0 Hq0 Hr0; simpl in *.
      * injection Hq0 as <-. injection Hr0 as <-. by rewrite Nat.add_0_r.
      * rewrite <- (Hall k q0 r0 Hq0 Hr0). f_equal.
        rewrite length_app. simpl. lia.
    + rewrite Hrun. unfold ret. simpl. by rewrite asking_asking.
  - right. exists (q :: pre), q', post, e. split; [done|]. split; [|split].
    + intros [|k] q0 Hq0; simpl in *.
      * injection Hq0 as <-. rewrite Nat.add_0_r, Hq. by intros [].
      * specialize (Hpre k q0 Hq0). simpl in Hpre.
        rewrite length_app in Hpre. simpl in Hpre.
        by replace (length (asked w) + S k) with (length (asked w) + 1 + k) by lia.
    + rewrite <- Hq'. f_equal. simpl. rewrite length_app. simpl. lia.
    + rewrite Hrun. by rewrite asking_asking.
Qed.
End recipes.

Section get_responses.
Variable program : string → nat → outcome string.

Lemma comprehension_raises pre q post e w :
  (∀ k q', pre !! k = Some q' →
     ¬ is_raised (program q' (length (asked w) + k))) →
  program q (length (asked w) + length pre) = Raised e →
  comprehension program (pre ++ q :: post) w = (Raised e, asking w (pre ++ [q])).
Proof.
  revert w. induction pre as [|q0 pre IH]; intros w Hpre Hq.
  - simpl in *. rewrite Nat.add_0_r in Hq.
    unfold mbind, prog_bind, bind. by rewrite generate_run, Hq.
  - cbn [app Recipes.comprehension]. unfold mbind, prog_bind, bind.
    rewrite generate_run.
    pose proof (Hpre 0 q0 eq_refl) as H0. rewrite Nat.add_0_r in H0.
    destruct (program q0 (length (asked w))) as [r0|e0]; [|by destruct H0].
    rewrite IH.
    + by rewrite asking_asking.
    + intros k q' Hk. simpl. rewrite length_app. simpl.
      replace (length (asked w) + 1 + k) with (length (asked w) + S k) by lia.
      by apply Hpre.
    + simpl. rewrite length_app. simpl. rewrite <- Hq. f_equal. simpl. lia.
Qed.

Lemma comprehension_returns queries w :
  (∀ k q, queries !! k = Some q →
     ¬ is_raised (program q (length (asked w) + k))) →
  ∃ responses,
    comprehension program queries w = (Returned responses, asking w queries)
    ∧ length responses = length queries
    ∧ ∀ k q, queries !! k = Some q →
        ∃ r, program q (length (asked w) + k) = Returned r
             ∧ responses !! k = Some (mk_response q r).
Proof.
  intros Hok.
  destruct (comprehension_cases program queries w)
    as [(recipes & Hlen & Hall & Hrun)|(pre & q & post & e & -> & _ & Hq & _)].
  2:{ exfalso. apply (Hok (length pre) q); [by apply list_lookup_middle|].
      by rewrite Hq. }
  exists (zip_with mk_response queries recipes). split; [done|]. split.
  - rewrite length_zip_with. lia.
  - intros k q Hk.
    destruct (lookup_lt_is_Some_2 recipes k) as [r Hr].
    { rewrite Hlen. by eapply lookup_lt_Some. }
    exists r. split; [by eapply Hall|].
    rewrite lookup_zip_with, Hk. simpl. by rewrite Hr.
Qed.
End get_responses.

(** X17. When every call of the recipe program succeeds, [get_responses]
    returns one response per query, in the order of the queries: the [k]-th
    response pairs the [k]-th query with the recipe of the [k]-th call.  It
    switches autologging on once, calls the program once per query in order,
    prints nothing and writes no file. *)
Theorem get_responses_in_order (program : string → nat → outcome string)
    (queries : list string) (w : world) :
  (∀ k q, queries !! k = Some q →
     ¬ is_raised (program q (length (asked w) + k))) →
  ∃ responses,
    get_responses program queries w
    = (Returned responses,
       World (tracking w) (lm_keys w) (S (autolog w)) (asked w ++ queries)
             (stdout w) (files w))
    ∧ length responses = length queries
    ∧ ∀ k q, queries !! k = Some q →
        ∃ r, program q (length (asked w) + k) = Returned r
             ∧ responses !! k = Some (mk_response q r).
Proof.
  intros Hok.
  destruct (comprehension_returns program queries
              (World (tracking w) (lm_keys w) (S (autolog w)) (asked w)
                 (stdout w) (files w)) Hok)
    as (responses & Hrun & Hlen & Hall).
  exists responses. split; [|done].
  unfold get_responses, mbind, prog_bind, bind, mlflow_dspy_autolog.
  by rewrite Hrun.
Qed.

Lemma get_responses_in_order_witness :
  (get_responses (Instances.titled 7) ["dinner"; "brunch"] init).1
  = Returned [ mk_response "dinner" "Recipe for: dinner";
               mk_response "brunch" "Recipe for: brunch" ].
Proof.
  destruct (get_responses_in_order (Instances.titled 7) ["dinner"; "brunch"] init)
    as (responses & Hrun & Hlen & Hall).
  - intros [|[|k]] q Hq; [by intros []..|done].
  - rewrite Hrun. simpl. f_equal.
    destruct (Hall 0 "dinner" eq_refl) as (r0 & Hr0 & H0).
    destruct (Hall 1 "brunch" eq_refl) as (r1 & Hr1 & H1).
    injection Hr0 as <-. injection Hr1 as <-.
    destruct responses as [|a [|b [|c responses]]]; try done.
    simpl in H0, H1. by injection H0 as ->; injection H1 as ->.
Defined.

(** X18. [get_responses] tolerates no failure: when the call for some query
    is the first to raise, the exception reaches the caller and no response
    is returned, also not those already generated; the program was called
    for the queries up to that one and for none after it. *)
Theorem get_responses_stops_at_first_failure
    (program : string → nat → outcome string)
    (pre : list string) (q : string) (post : list string) (e : exception)
    (w : world) :
  (∀ k q', pre !! k = Some q' →
     ¬ is_raised (program q' (length (asked w) + k))) →
  program q (length (asked w) + length pre) = Raised e →
  get_responses program (pre ++ q :: post) w
  = (Raised e,
     World (tracking w) (lm_keys w) (S (autolog w)) (asked w ++ pre ++ [q])
           (stdout w) (files w)).
Proof.
  intros Hpre Hq.
  unfold get_responses, mbind, prog_bind, bind, mlflow_dspy_autolog.
  by rewrite (comprehension_raises program pre q post e).
Qed.

Lemma get_responses_stops_at_first_failure_witness :
  get_responses (Instances.titled 1) (["dinner"] ++ "brunch" :: ["dessert"]) init
  = (Raised (Exc "ContextWindowExceededError" "too long"),
     World [] [] 1 ["dinner"; "brunch"] [] ∅).
Proof.
  apply (get_responses_stops_at_first_failure (Instances.titled 1)
           ["dinner"] "brunch" ["dessert"]).
  - intros [|k] q' Hq'; [by intros []|done].
  - reflexivity.
Defined.

Section main.
Variable program : string → nat → outcome string.
Variable read_query_column : outcome (list string).
Variable environ : gmap string string.

Local Abbreviation main := (Recipes.main program read_query_column environ).
Local Abbreviation out_path :=
  "homeworks/hw2/my_implementation/generated_recipes.csv".

Lemma main_read_fails e w :
  read_query_column = Raised e →
  main w = (Raised e,
            World ((tracking w ++ ["http://localhost:5000"]) ++ ["dspy-experiment"])
                  (lm_keys w) (autolog w) (asked w) (stdout w) (files w)).
Proof.
  intros Hread. unfold Recipes.main, mbind, prog_bind, bind, lift_outcome.
  by rewrite Hread.
Qed.

Lemma main_no_key column w :
  read_query_column = Returned column →
  environ !! "OPENAI_API_KEY" = None →
  main w = (Raised (Exc "KeyError" "'OPENAI_API_KEY'"),
            World ((tracking w ++ ["http://localhost:5000"]) ++ ["dspy-experiment"])
                  (lm_keys w) (autolog w) (asked w)
                  (stdout w ++ ["Configuring DSPy language model..."]) (files w)).
Proof.
  intros Hread Hkey.
  unfold Recipes.main, configure_lm, environ_getitem, mbind, prog_bind, bind,
    lift_outcome.
  by rewrite Hread, Hkey.
Qed.

Lemma main_with_key column key w :
  read_query_column = Returned column →
  environ !! "OPENAI_API_KEY" = Some key →
  main w
  = match get_responses program (take 40 column) (ready w key) with
    | (Returned responses, w5) =>
        (Returned (),
         World (tracking w5) (lm_keys w5) (autolog w5) (asked w5)
               ((stdout w5
                 ++ ["Saving generated recipes to 'generated_recipes.csv'..."])
                ++ ["Recipes generated and saved to 'generated_recipes.csv'."])
               (<[out_path := responses]> (files w5)))
    | (Raised e, w5) => (Raised e, w5)
    end.
Proof.
  intros Hread Hkey.
  unfold Recipes.main, configure_lm, environ_getitem.
  unfold mbind at 1 2 3 4 5 6 7 8, prog_bind, bind, lift_outcome.
  rewrite Hread, Hkey. simpl. fold (ready w key).
  by destruct (get_responses program (take 40 column) (ready w key)) as [[rs|e] w5].
Qed.

(** What [get_responses] asks and leaves alone, whatever the program does. *)
Lemma get_responses_footprint queries w :
  ∃ p, p `prefix_of` queries
       ∧ (get_responses program queries w).2
         = World (tracking w) (lm_keys w) (S (autolog w)) (asked w ++ p)
                 (stdout w) (files w)
       ∧ ∀ responses, (get_responses program queries w).1 = Returned responses →
           p = queries ∧ length responses = length queries.
Proof.
  unfold get_responses, mbind, prog_bind, bind, mlflow_dspy_autolog.
  destruct (comprehension_cases program queries
              (World (tracking w) (lm_keys w) (S (autolog w)) (asked w)
                 (stdout w) (files w)))
    as [(recipes & Hlen & _ & ->)|(pre & q & post & e & -> & _ & _ & ->)].
  - exists queries. split; [done|]. split; [done|].
    intros responses [= <-]. split; [done|]. rewrite length_zip_with. lia.
  - exists (pre ++ [q]). split; [|by split].
    exists post. by rewrite <- app_assoc.
Qed.
End main.

(** X19. Whatever the inputs, the script puts at most 40 questions to the
    recipe program, and they are the leading entries of the query column, in
    order; it asks nothing when the column cannot be read or the credential
    is missing.  Writing is all or nothing: when the script raises, no file
    is changed; otherwise only the output file is, and it holds one response
    per question asked. *)
Theorem recipes_main_bounded (program : string → nat → outcome string)
    (read_query_column : outcome (list string)) (environ : gmap string string)
    (w : world) :
  let run := Recipes.main program read_query_column environ w in
  ∃ p,
    asked run.2 = asked w ++ p
    ∧ length p ≤ 40
    ∧ (∀ column, read_query_column = Returned column → p `prefix_of` column)
    ∧ (is_raised read_query_column ∨ environ !! "OPENAI_API_KEY" = None →
       p = [])
    ∧ (is_raised run.1 → files run.2 = files w)
    ∧ (¬ is_raised run.1 →
       ∃ responses,
         length responses = length p
         ∧ files run.2
           = <["homeworks/hw2/my_implementation/generated_recipes.csv"
               := responses]> (files w)).
Proof.
  intros run. subst run.
  destruct read_query_column as [column|e] eqn:Hread.
  2:{ exists []. rewrite (main_read_fails _ _ _ e) by done. simpl.
      rewrite app_nil_r. split_and!; try done; lia. }
  destruct (environ !! "OPENAI_API_KEY") as [key|] eqn:Hkey.
  2:{ exists []. rewrite (main_no_key _ _ _ column) by done. simpl.
      rewrite app_nil_r.
      split_and!; try done; try lia; intros; apply prefix_nil. }
  rewrite (main_with_key _ _ _ column key) by done.
  destruct (get_responses_footprint program (take 40 column) (ready w key))
    as (p & Hp & Hworld & Hret).
  destruct (get_responses program (take 40 column) (ready w key))
    as [[responses|e] w5]; simpl in *; subst w5; simpl.
  - destruct (Hret responses eq_refl) as [-> Hlen].
    exists (take 40 column). split_and!; try done;
      try (rewrite length_take; lia);
      try (intros c [= <-]; apply prefix_take);
      try (by intros [[]|[=]]);
      try (intros _; by exists responses).
  - exists p. split_and!; try done;
      try (apply prefix_length in Hp; rewrite length_take in Hp; lia);
      try (intros c [= <-]; etrans; [exact Hp|apply prefix_take]);
      try (by intros [[]|[=]]);
      try (intros H; by destruct H).
Qed.

(** X20. The successful run of the script: with a readable column, the
    credential, and a program that succeeds on each of the first 40 queries,
    it returns normally; the output file holds one response per query among
    the first 40, in order, each pairing the query with its recipe; the
    language model was configured with the credential of the environment;
    and the five progress lines were printed in order. *)
Theorem recipes_main_success (program : string → nat → outcome string)
    (read_query_column : outcome (list string)) (environ : gmap string string)
    (column : list string) (key : string) (w : world) :
  let queries := take 40 column in
  let run := Recipes.main program read_query_column environ w in
  read_query_column = Returned column →
  environ !! "OPENAI_API_KEY" = Some key →
  (∀ k q, queries !! k = Some q →
     ¬ is_raised (program q (length (asked w) + k))) →
  ∃ responses,
    run.1 = Returned ()
    ∧ files run.2
      = <["homeworks/hw2/my_implementation/generated_recipes.csv" := responses]>
          (files w)
    ∧ length responses = length queries
    ∧ (∀ k q, queries !! k = Some q →
         ∃ r, program q (length (asked w) + k) = Returned r
              ∧ responses !! k = Some (mk_response q r))
    ∧ asked run.2 = asked w ++ queries
    ∧ lm_keys run.2 = lm_keys w ++ [key]
    ∧ autolog run.2 = S (autolog w)
    ∧ stdout run.2
      = stdout w ++
        [ "Configuring DSPy language model...";
          "Creating DSPy program for recipe generation...";
          "Generating recipes for the queries...";
          "Saving generated recipes to 'generated_recipes.csv'...";
          "Recipes generated and saved to 'generated_recipes.csv'." ].
Proof.
  intros queries run Hread Hkey Hok. subst run.
  rewrite (main_with_key _ _ _ column key) by done.
  destruct (comprehension_returns program queries
              (World (tracking (ready w key)) (lm_keys (ready w key))
                 (S (autolog (ready w key))) (asked (ready w key))
                 (stdout (ready w key)) (files (ready w key))) Hok)
    as (responses & Hrun & Hlen & Hall).
  exists responses.
  unfold get_responses, mbind, prog_bind, bind, mlflow_dspy_autolog.
  fold queries. rewrite Hrun. simpl.
  split_and!; try done.
  by rewrite <- !app_assoc.
Qed.

Lemma recipes_main_success_witness :
  let run := Recipes.main (Instances.titled 7) (Returned ["dinner"; "brunch"])
               Instances.environ init in
  ∃ responses,
    run.1 = Returned ()
    ∧ files run.2
      = <["homeworks/hw2/my_implementation/generated_recipes.csv" := responses]>
          (files init)
    ∧ length responses = length (take 40 ["dinner"; "brunch"])
    ∧ asked run.2 = asked init ++ take 40 ["dinner"; "brunch"]
    ∧ lm_keys run.2 = lm_keys init ++ ["sk-test"].
Proof.
  intros run.
  destruct (recipes_main_success (Instances.titled 7)
              (Returned ["dinner"; "brunch"]) Instances.environ
              ["dinner"; "brunch"] "sk-test" init)
    as (responses & H1 & H2 & H3 & _ & H5 & H6 & _).
  - reflexivity.
  - reflexivity.
  - intros [|[|k]] q Hq; [by intros []..|done].
  - exists responses.
    split; [exact H1|]. split; [exact H2|]. split; [exact H3|].
    split; [exact H5|exact H6].
Defined.

End RecipeFacts.
